(** * YOLOv5 post-processing (furiosa.models.vision.yolov5.postprocess)

    A shallow embedding of the decode -> filter -> suppress -> remap
    pipeline of [postprocess.py], and the properties of it that the
    specification states.

    Numeric model.  The arrays of the source hold IEEE floats; here every
    entry is an exact rational ([Q]), so rounding is not modelled and an
    equation between computed values is an equation between rationals.
    An [np.ndarray] is a shape together with its row-major buffer, as numpy
    stores a C-contiguous array.  A two-dimensional array that the source
    walks row by row (the candidate table of [non_max_suppression]) is a
    list of rows.  Python exceptions are values of [exn]. *)

From Stdlib Require Import String.
From Stdlib Require Import List Arith Lia ZArith QArith Qminmax Bool.
From Stdlib Require Import Permutation Sorted Lqa.
Import ListNotations.

Close Scope Q_scope.
Open Scope nat_scope.

(* ------------------------------------------------------------------ *)
(** ** Exceptions *)

Inductive exn : Type :=
| ValueError
| IndexError
| AssertionError
| ZeroDivisionError.

Inductive result (A : Type) : Type :=
| Ok (a : A)
| Raise (e : exn).

Arguments Ok {A} a.
Arguments Raise {A} e.

Definition bind {A B : Type} (m : result A) (k : A -> result B) : result B :=
  match m with
  | Ok a => k a
  | Raise e => Raise e
  end.

Notation "x <- m ;; k" := (bind m (fun x => k))
  (at level 61, m at next level, right associativity).

Notation "' p <- m ;; k" := (bind m (fun p => k))
  (at level 61, p pattern, m at next level, right associativity).

(** [[f(a) for a in l]], stopping at the first exception. *)
Fixpoint mapM {A B : Type} (f : A -> result B) (l : list A) : result (list B) :=
  match l with
  | [] => Ok []
  | a :: l' => b <- f a ;; bs <- mapM f l' ;; Ok (b :: bs)
  end.

Definition is_ok {A : Type} (m : result A) : bool :=
  match m with Ok _ => true | Raise _ => false end.

(* ------------------------------------------------------------------ *)
(** ** The part of numpy the source uses *)

Record ndarray : Type := mk_ndarray { shape : list nat; data : list Q }.

(** Number of elements of an array of shape [s]. *)
Definition size (s : list nat) : nat := fold_right Nat.mul 1 s.

(** Row-major offset of a multi-index, and its inverse. *)
Fixpoint ravel (s idx : list nat) : nat :=
  match s, idx with
  | _ :: s', i :: idx' => i * size s' + ravel s' idx'
  | _, _ => 0
  end.

Fixpoint unravel (s : list nat) (k : nat) : list nat :=
  match s with
  | [] => []
  | _ :: s' => (k / size s') :: unravel s' (k mod size s')
  end.

(** A multi-index that lies inside a shape. *)
Definition in_bounds (idx s : list nat) : Prop := Forall2 lt idx s.

(** [t[idx]]. *)
Definition get (t : ndarray) (idx : list nat) : Q :=
  nth (ravel (shape t) idx) (data t) 0%Q.

(** The array of shape [s] whose entry at [idx] is [f idx]. *)
Definition tabulate (s : list nat) (f : list nat -> Q) : ndarray :=
  {| shape := s; data := map (fun k => f (unravel s k)) (seq 0 (size s)) |}.

(** An operation applied entry by entry ([t * 2], [t - 0.5], [t ** 2]). *)
Definition map_arr (f : Q -> Q) (t : ndarray) : ndarray :=
  {| shape := shape t; data := map f (data t) |}.

(** [t.reshape(s)]: the buffer is kept, the element counts must agree. *)
Definition reshape (t : ndarray) (s : list nat) : result ndarray :=
  if size s =? size (shape t)
  then Ok {| shape := s; data := data t |}
  else Raise ValueError.

(** [t.transpose(0, 1, 3, 4, 2)] of a five-dimensional array: axis [k] of
    the result is axis [(0,1,3,4,2)[k]] of [t]. *)
Definition transpose_01342 (t : ndarray) : result ndarray :=
  match shape t with
  | [s0; s1; s2; s3; s4] =>
      Ok (tabulate [s0; s1; s3; s4; s2]
            (fun idx =>
               match idx with
               | [i0; i1; i3; i4; i2] => get t [i0; i1; i2; i3; i4]
               | _ => 0%Q
               end))
  | _ => Raise ValueError
  end.

(** [t[i]]: the sub-array at position [i] of the leading axis. *)
Definition subarray (t : ndarray) (i : nat) : result ndarray :=
  match shape t with
  | d :: s' =>
      if i <? d
      then Ok {| shape := s';
                 data := firstn (size s') (skipn (i * size s') (data t)) |}
      else Raise IndexError
  | [] => Raise IndexError
  end.

(** Broadcasting of two axis lengths. *)
Definition bdim (d1 d2 : nat) : result nat :=
  if d1 =? d2 then Ok d1
  else if d1 =? 1 then Ok d2
  else if d2 =? 1 then Ok d1
  else Raise ValueError.

(** Broadcasting of two shapes, trailing axes aligned; the arguments of
    [bshape_rev] are the shapes read from the last axis. *)
Fixpoint bshape_rev (s1 s2 : list nat) : result (list nat) :=
  match s1, s2 with
  | [], s => Ok s
  | s, [] => Ok s
  | d1 :: r1, d2 :: r2 =>
      d <- bdim d1 d2 ;; r <- bshape_rev r1 r2 ;; Ok (d :: r)
  end.

Definition broadcast_shapes (s1 s2 : list nat) : result (list nat) :=
  r <- bshape_rev (rev s1) (rev s2) ;; Ok (rev r).

(** Where an index of the broadcast result reads in an operand of shape
    [ss]: leading axes the operand lacks are dropped, and an axis of length
    one is read at 0. *)
Fixpoint bindex_rev (ss idx : list nat) : list nat :=
  match ss, idx with
  | d :: ss', i :: idx' => (if d =? 1 then 0 else i) :: bindex_rev ss' idx'
  | _, _ => []
  end.

Definition bindex (ss idx : list nat) : list nat :=
  rev (bindex_rev (rev ss) (rev idx)).

Fixpoint can_broadcast_rev (ss ts : list nat) : bool :=
  match ss, ts with
  | [], _ => true
  | _ :: _, [] => false
  | d :: ss', e :: ts' => ((d =? e) || (d =? 1)) && can_broadcast_rev ss' ts'
  end.

(** [np.broadcast_to(t, s)]. *)
Definition broadcast_to (t : ndarray) (s : list nat) : result ndarray :=
  if can_broadcast_rev (rev (shape t)) (rev s)
  then Ok (tabulate s (fun idx => get t (bindex (shape t) idx)))
  else Raise ValueError.

(** [a op b] with broadcasting. *)
Definition broadcast2 (f : Q -> Q -> Q) (a b : ndarray) : result ndarray :=
  s <- broadcast_shapes (shape a) (shape b) ;;
  Ok (tabulate s (fun idx =>
        f (get a (bindex (shape a) idx)) (get b (bindex (shape b) idx)))).

(** [t[..., lo:hi]]. *)
Definition slice_last (lo hi : nat) (t : ndarray) : ndarray :=
  let d := last (shape t) 0 in
  tabulate (removelast (shape t) ++ [Nat.min hi d - lo])
    (fun idx => get t (removelast idx ++ [last idx 0 + lo])).

Definition shape_eqb (s1 s2 : list nat) : bool :=
  if list_eq_dec Nat.eq_dec s1 s2 then true else false.

(** Entry of a concatenation along the last axis: the piece that holds
    position [k] is found by walking the pieces. *)
Fixpoint pick_last (ts : list ndarray) (pre : list nat) (k : nat) : Q :=
  match ts with
  | [] => 0%Q
  | t :: ts' =>
      let d := last (shape t) 0 in
      if k <? d then get t (pre ++ [k]) else pick_last ts' pre (k - d)
  end.

(** [np.concatenate(ts, axis=-1)]: the pieces agree on every other axis. *)
Definition concatenate_last (ts : list ndarray) : result ndarray :=
  match ts with
  | [] => Raise ValueError
  | t0 :: rest =>
      match shape t0 with
      | [] => Raise ValueError
      | _ :: _ =>
          if forallb (fun t => match shape t with
                               | [] => false
                               | _ :: _ => shape_eqb (removelast (shape t))
                                                     (removelast (shape t0))
                               end) rest
          then Ok (tabulate
                     (removelast (shape t0) ++
                        [list_sum (map (fun t => last (shape t) 0) ts)])
                     (fun idx => pick_last ts (removelast idx) (last idx 0)))
          else Raise ValueError
      end
  end.

Fixpoint pick_axis1 (ts : list ndarray) (i j k : nat) : Q :=
  match ts with
  | [] => 0%Q
  | t :: ts' =>
      let n := nth 1 (shape t) 0 in
      if j <? n then get t [i; j; k] else pick_axis1 ts' i (j - n) k
  end.

(** [np.concatenate(ts, axis=1)] of three-dimensional arrays. *)
Definition concatenate_axis1 (ts : list ndarray) : result ndarray :=
  match ts with
  | [] => Raise ValueError
  | t0 :: _ =>
      match shape t0 with
      | [b; _; c] =>
          if forallb (fun t => match shape t with
                               | [b'; _; c'] => (b' =? b) && (c' =? c)
                               | _ => false
                               end) ts
          then Ok (tabulate
                     [b; list_sum (map (fun t => nth 1 (shape t) 0) ts); c]
                     (fun idx => match idx with
                                 | [i; j; k] => pick_axis1 ts i j k
                                 | _ => 0%Q
                                 end))
          else Raise ValueError
      | _ => Raise ValueError
      end
  end.

(** [np.arange(n, dtype=np.float32)]. *)
Definition arange (n : nat) : ndarray :=
  {| shape := [n]; data := map (fun k => inject_Z (Z.of_nat k)) (seq 0 n) |}.

(** [np.meshgrid(y, x, indexing="ij")] of two vectors: [(yv, xv)] with
    [yv[r, c] = y[r]] and [xv[r, c] = x[c]]. *)
Definition meshgrid_ij (y x : ndarray) : ndarray * ndarray :=
  let s := [size (shape y); size (shape x)] in
  (tabulate s (fun idx => get y [nth 0 idx 0]),
   tabulate s (fun idx => get x [nth 1 idx 0])).

(** [np.stack((a, b), axis=2)] of two matrices of one shape. *)
Definition stack2_axis2 (a b : ndarray) : result ndarray :=
  if shape_eqb (shape a) (shape b) && (length (shape a) =? 2)
  then Ok (tabulate (shape a ++ [2])
             (fun idx => match last idx 0 with
                         | 0 => get a (removelast idx)
                         | _ => get b (removelast idx)
                         end))
  else Raise ValueError.

(** The rows of image [xi] of a three-dimensional array [(b, n, c)]. *)
Definition image_rows (t : ndarray) (n c xi : nat) : list (list Q) :=
  map (fun j => map (fun k => get t [xi; j; k]) (seq 0 c)) (seq 0 n).

(** [x[idxs]]: the rows of [x] at the listed positions. *)
Definition gather {A : Type} (x : list (list A)) (idxs : list nat)
  : list (list A) :=
  map (fun i => nth i x []) idxs.

(* ------------------------------------------------------------------ *)
(** ** Comparisons and sorting *)

(** [a > b] on array entries. *)
Definition Qgt_bool (a b : Q) : bool := negb (Qle_bool a b).

(** Insertion into an index list kept ascending by [key]; an index goes
    before the first one whose key is not smaller. *)
Fixpoint insert_by (key : nat -> Q) (i : nat) (l : list nat) : list nat :=
  match l with
  | [] => [i]
  | j :: l' =>
      if Qle_bool (key i) (key j) then i :: l else j :: insert_by key i l'
  end.

(** [np.argsort(scores)]: the indices [0 .. n-1] in ascending order of
    score.  numpy's default sort kind is not stable, so the order it gives
    to equal scores is not fixed; the model takes the stable order (equal
    scores keep their positions).  That order is a choice of the model:
    the properties below either hold for every order of equal scores, or
    assume that no two scores are equal ([distinct_scores]), in which case
    the ascending order is unique. *)
Definition argsort (scores : list Q) : list nat :=
  fold_right (insert_by (fun i => nth i scores 0%Q)) []
    (seq 0 (length scores)).

(** [np.where(m)] of a two-dimensional boolean array: the positions of the
    true entries, row by row. *)
Fixpoint where_row (i j : nat) (row : list bool) : list (nat * nat) :=
  match row with
  | [] => []
  | b :: row' =>
      (if b then [(i, j)] else []) ++ where_row i (S j) row'
  end.

Fixpoint where_from (i : nat) (m : list (list bool)) : list (nat * nat) :=
  match m with
  | [] => []
  | row :: m' => where_row i 0 row ++ where_from (S i) m'
  end.

Definition np_where (m : list (list bool)) : list (nat * nat) :=
  where_from 0 m.

(* ------------------------------------------------------------------ *)
(** ** [_reshape_output] *)

Definition _reshape_output (feat : ndarray) (anchor_per_layer_count : nat)
    (num_classes : nat) : result ndarray :=
  match shape feat with
  | b :: _ :: w :: h :: _ =>
      r <- reshape feat [b; anchor_per_layer_count; num_classes + 5; w; h] ;;
      transpose_01342 r
  | _ => Raise IndexError
  end.

(* ------------------------------------------------------------------ *)
(** ** Boxes: [_box_area], [_box_iou], [xywh2xyxy] *)

(** Column [k] of a row. *)
Definition col (k : nat) (row : list Q) : Q := nth k row 0%Q.

(** [_box_area(left_top, right_bottom)]: width and height clipped at 0. *)
Definition _box_area (left_top right_bottom : list Q) : Q :=
  let w := Qmax (col 0 right_bottom - col 0 left_top) 0 in
  let h := Qmax (col 1 right_bottom - col 1 left_top) 0 in
  (w * h)%Q.

Definition eps : Q := (1 # 100000)%Q.

(** [_box_iou(boxes1, boxes2)] for one pair of boxes [(x1, y1, x2, y2)]:
    the exact quotient, where the source has the rounded one. *)
Definition _box_iou (box1 box2 : list Q) : Q :=
  let overlap_left_top :=
    [Qmax (col 0 box1) (col 0 box2); Qmax (col 1 box1) (col 1 box2)] in
  let overlap_right_bottom :=
    [Qmin (col 2 box1) (col 2 box2); Qmin (col 3 box1) (col 3 box2)] in
  let overlap_area := _box_area overlap_left_top overlap_right_bottom in
  let area1 := _box_area (firstn 2 box1) (skipn 2 box1) in
  let area2 := _box_area (firstn 2 box2) (skipn 2 box2) in
  (overlap_area / (area1 + area2 - overlap_area + eps))%Q.

(** [xywh2xyxy] on one row [(cx, cy, w, h)]. *)
Definition xywh2xyxy_row (x : list Q) : list Q :=
  [ (col 0 x - col 2 x / 2)%Q;
    (col 1 x - col 3 x / 2)%Q;
    (col 0 x + col 2 x / 2)%Q;
    (col 1 x + col 3 x / 2)%Q ].

Definition xywh2xyxy (x : list (list Q)) : list (list Q) :=
  map xywh2xyxy_row x.

(* ------------------------------------------------------------------ *)
(** ** [_nms] *)

(** The [while] loop of [_nms] over the remaining [indexes].  Every turn
    removes the head, so [length indexes] turns are enough; [fuel] counts
    them. *)
Fixpoint nms_loop (boxes : list (list Q)) (iou_threshold : Q) (fuel : nat)
    (indexes : list nat) : list nat :=
  match fuel with
  | 0 => []
  | S fuel' =>
      match indexes with
      | [] => []
      | current :: rest =>
          current ::
            match rest with
            | [] => []
            | _ :: _ =>
                let current_box := nth current boxes [] in
                nms_loop boxes iou_threshold fuel'
                  (filter (fun r =>
                             Qle_bool (_box_iou (nth r boxes []) current_box)
                                      iou_threshold) rest)
            end
      end
  end.

Definition _nms (box_scores : list (list Q)) (iou_threshold : Q) : list nat :=
  let scores := map (col 4) box_scores in
  let boxes := map (firstn 4) box_scores in
  let indexes := rev (argsort scores) in
  nms_loop boxes iou_threshold (length indexes) indexes.

(** The default of the [iou_threshold] parameter of [_nms]. *)
Definition iou_threshold_default : Q := (45 # 100)%Q.

(* ------------------------------------------------------------------ *)
(** ** [non_max_suppression] *)

Definition max_nms : N := 30000%N.

Definition in_unit (t : Q) : bool := Qle_bool 0 t && Qle_bool t 1.

(** [x[:, 5:] *= x[:, 4:5]] on one row. *)
Definition scale_conf (row : list Q) : list Q :=
  firstn 5 row ++ map (fun c => (c * col 4 row)%Q) (skipn 5 row).

(** The table built by [np.concatenate((box[i], x[i, j + 5], j), axis=1)]:
    one row per pair [(i, j)] returned by [np.where].  The source casts the
    score and the class index to [float32] as it builds the row; with
    exact entries the cast is not modelled, and column 4 of this table
    stands for the score as emitted. *)
Definition expand (conf_thres : Q) (x : list (list Q)) : list (list Q) :=
  let box := xywh2xyxy (map (firstn 4) x) in
  let ij := np_where (map (fun row => map (fun v => Qgt_bool v conf_thres)
                                          (skipn 5 row)) x) in
  map (fun '(i, j) =>
         nth i box [] ++ [col (j + 5) (nth i x []); inject_Z (Z.of_nat j)])
      ij.

(** [x[np.argsort(x[:, 4])[::-1][:max_nms]]] when there are more than
    [max_nms] rows. *)
Definition cap (x : list (list Q)) : list (list Q) :=
  if (max_nms <? N.of_nat (length x))%N
  then gather x (firstn (N.to_nat max_nms) (rev (argsort (map (col 4) x))))
  else x.

(** The body of the loop over the images; [continue] leaves the entry of
    [output] as the empty array it was initialised with. *)
Definition nms_image (conf_thres : Q) (rows : list (list Q))
  : list (list Q) :=
  let x := filter (fun row => Qgt_bool (col 4 row) conf_thres) rows in
  match x with
  | [] => []
  | _ :: _ =>
      let x := map scale_conf x in
      let x := expand conf_thres x in
      match x with
      | [] => []
      | _ :: _ =>
          let x := cap x in
          let i := _nms (map (firstn 5) x) iou_threshold_default in
          gather x i
      end
  end.

(** The rows of image [xi] of an array of shape [(b, m1, ..., mk, c)].
    The boolean mask [candidates[xi]] selects along the axes
    [mid = (m1, ..., mk)] in row-major order, so [x[candidates[xi]]] is
    taken from a table of [size mid] rows; for an array of two axes the
    mask is one boolean and the table is the single row
    [prediction[xi]]. *)
Definition table_rows (t : ndarray) (mid : list nat) (c xi : nat)
  : list (list Q) :=
  map (fun j => map (fun k => get t (xi :: unravel mid j ++ [k])) (seq 0 c))
      (seq 0 (size mid)).

(** [__call__] passes a [prediction] of shape
    [(batch, candidates, classes + 5)].  The objectness column is read
    before the thresholds are asserted; the [iou_thres] argument is
    asserted and not used again.  An array without axes has no
    [shape[0]]; on a vector the mask has no axes and [candidates[xi]]
    raises [IndexError] in the first turn of the loop; an array of two
    axes, or of more than three, is a batch of the tables [table_rows]. *)
Definition non_max_suppression (prediction : ndarray)
    (conf_thres iou_thres : Q) : result (list (list (list Q))) :=
  match shape prediction with
  | [batch_size; n; c] =>
      if c <=? 4 then Raise IndexError
      else if negb (in_unit conf_thres) then Raise AssertionError
      else if negb (in_unit iou_thres) then Raise AssertionError
      else Ok (map (fun xi => nms_image conf_thres (image_rows prediction n c xi))
                   (seq 0 batch_size))
  | [] => Raise IndexError
  | [c] =>
      if c <=? 4 then Raise IndexError
      else if negb (in_unit conf_thres) then Raise AssertionError
      else if negb (in_unit iou_thres) then Raise AssertionError
      else Raise IndexError
  | batch_size :: rest =>
      let c := last rest 0 in
      if c <=? 4 then Raise IndexError
      else if negb (in_unit conf_thres) then Raise AssertionError
      else if negb (in_unit iou_thres) then Raise AssertionError
      else Ok (map (fun xi => nms_image conf_thres
                                (table_rows prediction (removelast rest) c xi))
                   (seq 0 batch_size))
  end.

(* ------------------------------------------------------------------ *)
(** ** [YOLOv5PythonPostProcessor] *)

Record YOLOv5PythonPostProcessor : Type := {
  anchors : ndarray;
  class_names : list string;
  input_shape : nat * nat;
  num_layers : nat;
  anchor_per_layer_count : nat;
  stride : list Q;
  grid : list ndarray;
  anchor_grid : list ndarray
}.

(** The context the preprocessor hands over for one image:
    [{"scale": ratio, "pad": (dw, dh)}]. *)
Record context : Type := { scale : Q; pad : Q * Q }.

(** [8.0 * pow(2, i)]. *)
Definition stride_of (i : nat) : Q := inject_Z (8 * 2 ^ Z.of_nat i).

(** [make_grid(nx, ny, i)], with the fields of [self] it reads as
    arguments. *)
Definition make_grid (anchors : ndarray) (stride : list Q)
    (anchor_per_layer_count : nat) (nx ny i : nat)
  : result (ndarray * ndarray) :=
  let shape := [1; anchor_per_layer_count; ny; nx; 2] in
  let y := arange ny in
  let x := arange nx in
  let '(yv, xv) := meshgrid_ij y x in
  st <- stack2_axis2 xv yv ;;
  g <- broadcast_to st shape ;;
  let grid := map_arr (fun v => (v - (1 # 2))%Q) g in
  a <- subarray anchors i ;;
  r <- reshape (map_arr (fun v => (v * nth i stride 0)%Q) a)
               [1; anchor_per_layer_count; 1; 1; 2] ;;
  anchor_grid <- broadcast_to r shape ;;
  Ok (grid, anchor_grid).

(** [init_grid()]: [int(input_shape[k] / (8 * pow(2, i)))] is the integer
    quotient, the operands being non-negative. *)
Definition init_grid (anchors : ndarray) (stride : list Q)
    (anchor_per_layer_count num_layers : nat) (input_shape : nat * nat)
  : result (list ndarray * list ndarray) :=
  let nx_ny := map (fun i => (fst input_shape / (8 * 2 ^ i),
                              snd input_shape / (8 * 2 ^ i)))
                   (seq 0 num_layers) in
  gs <- mapM (fun i => make_grid anchors stride anchor_per_layer_count
                         (fst (nth i nx_ny (0, 0))) (snd (nth i nx_ny (0, 0))) i)
             (seq 0 num_layers) ;;
  Ok (map fst gs, map snd gs).

(** [__init__(anchors, class_names, input_shape)]. *)
Definition init (anchors : ndarray) (class_names : list string)
    (input_shape : nat * nat) : result YOLOv5PythonPostProcessor :=
  match shape anchors with
  | num_layers :: anchor_per_layer_count :: _ =>
      let stride := map stride_of (seq 0 num_layers) in
      '(grid, anchor_grid) <-
        init_grid anchors stride anchor_per_layer_count num_layers
                  input_shape ;;
      Ok {| anchors := anchors;
            class_names := class_names;
            input_shape := input_shape;
            num_layers := num_layers;
            anchor_per_layer_count := anchor_per_layer_count;
            stride := stride;
            grid := grid;
            anchor_grid := anchor_grid |}
  | _ => Raise IndexError
  end.

(** [zip] of four sequences stops at the shortest. *)
Fixpoint zip4 {A B C D : Type} (la : list A) (lb : list B) (lc : list C)
    (ld : list D) : list (A * B * C * D) :=
  match la, lb, lc, ld with
  | a :: la', b :: lb', c :: lc', d :: ld' =>
      (a, b, c, d) :: zip4 la' lb' lc' ld'
  | _, _, _, _ => []
  end.

(** [prediction[:, [0, 2]] = (1 / ratio) * (prediction[:, [0, 2]] - dwdh[0])]
    and the same for columns 1 and 3 with [dwdh[1]], on one row. *)
Definition remap_row (ratio : Q) (dwdh : Q * Q) (row : list Q) : list Q :=
  match row with
  | x1 :: y1 :: x2 :: y2 :: rest =>
      ((1 / ratio) * (x1 - fst dwdh))%Q ::
      ((1 / ratio) * (y1 - snd dwdh))%Q ::
      ((1 / ratio) * (x2 - fst dwdh))%Q ::
      ((1 / ratio) * (y2 - snd dwdh))%Q :: rest
  | _ => row
  end.

(** The loop over [enumerate(model_outputs)] that closes [__call__].
    [contexts[i]] raises [IndexError] past the end of [contexts]; [ratio]
    is a Python float, so [1 / ratio] raises [ZeroDivisionError] at 0. *)
Fixpoint remap (i : nat) (predictions : list (list (list Q)))
    (contexts : list context) : result (list (list (list Q))) :=
  match predictions with
  | [] => Ok []
  | prediction :: rest =>
      match nth_error contexts i with
      | None => Raise IndexError
      | Some ctx =>
          if Qeq_bool (scale ctx) 0 then Raise ZeroDivisionError
          else
            tl <- remap (S i) rest contexts ;;
            Ok (map (remap_row (scale ctx) (pad ctx)) prediction :: tl)
      end
  end.

Section Call.

(** [sigmoid(x) = 1 / (1 + exp(-x))] is not a rational function; the
    pipeline takes it as a parameter. *)
Variable sigmoid : Q -> Q.

Variable self : YOLOv5PythonPostProcessor.

(** [sigmoid(model_output)] when [with_sigmoid] is set. *)
Definition activate (with_sigmoid : bool) (model_output : ndarray)
  : ndarray :=
  if with_sigmoid then map_arr sigmoid model_output else model_output.

(** The decoded tensor [y] of one scale: the body of the loop of
    [__call__] up to [np.concatenate((xy, wh, conf), axis=4)]. *)
Definition decode (with_sigmoid : bool) (model_output grid : ndarray)
    (stride : Q) (anchor_grid : ndarray) : result ndarray :=
  let model_output := activate with_sigmoid model_output in
  let xy := slice_last 0 2 model_output in
  let wh := slice_last 2 4 model_output in
  let conf := slice_last 4 (last (shape model_output) 0) model_output in
  xy <- broadcast2 Qplus (map_arr (fun v => (v * 2)%Q) xy) grid ;;
  let xy := map_arr (fun v => (v * stride)%Q) xy in
  wh <- broadcast2 Qmult (map_arr (fun v => ((v * 2) ^ 2)%Q) wh)
                   anchor_grid ;;
  concatenate_last [xy; wh; conf].

(** One turn of the loop of [__call__]: decode, then flatten to
    [(1, anchors * nx * ny, classes + 5)]. *)
Definition decode_layer (with_sigmoid : bool)
    (layer : ndarray * ndarray * Q * ndarray) : result ndarray :=
  let '(model_output, grid, stride, anchor_grid) := layer in
  match shape model_output with
  | [_; _; nx; ny; _] =>
      y <- decode with_sigmoid model_output grid stride anchor_grid ;;
      reshape y [1; anchor_per_layer_count self * nx * ny;
                 length (class_names self) + 5]
  | _ => Raise ValueError
  end.

(** [__call__] up to [np.concatenate(outputs, axis=1)]. *)
Definition decode_all (model_outputs : list ndarray) (with_sigmoid : bool)
  : result ndarray :=
  model_outputs <-
    mapM (fun f => _reshape_output f (anchor_per_layer_count self)
                     (length (class_names self))) model_outputs ;;
  outputs <-
    mapM (decode_layer with_sigmoid)
         (zip4 model_outputs (grid self) (stride self) (anchor_grid self)) ;;
  concatenate_axis1 outputs.

(** [__call__(model_outputs, contexts, conf_thres, iou_thres,
    with_sigmoid)]. *)
Definition call (model_outputs : list ndarray) (contexts : list context)
    (conf_thres iou_thres : Q) (with_sigmoid : bool)
  : result (list (list (list Q))) :=
  outputs <- decode_all model_outputs with_sigmoid ;;
  model_outputs <- non_max_suppression outputs conf_thres iou_thres ;;
  remap 0 model_outputs contexts.

End Call.

(** The defaults of [__call__]. *)
Definition conf_thres_default : Q := (25 # 100)%Q.
Definition iou_thres_default : Q := (45 # 100)%Q.

(* ------------------------------------------------------------------ *)
(** ** The expansion and the suppression step, read on rows

    [non_max_suppression] works with index arrays ([np.where],
    [np.argsort], the [indexes] of [_nms]).  The definitions below say what
    these steps do to the rows the indices stand for; the lemmas of the
    second part relate them to the index code above. *)

(** Combined confidence of class [j] of a candidate row:
    [class_score * objectness]. *)
Definition combined (row : list Q) (j : nat) : Q :=
  (col (j + 5) row * col 4 row)%Q.

(** The DetectionCandidate [{x1, y1, x2, y2, combined_confidence, class_id}]
    of a candidate row and a class. *)
Definition detection_candidate (row : list Q) (j : nat) : list Q :=
  xywh2xyxy_row row ++ [combined row j; inject_Z (Z.of_nat j)].

(** The classes of a candidate row whose combined confidence exceeds the
    threshold, in ascending order. *)
Definition classes_over (conf_thres : Q) (row : list Q) : list nat :=
  filter (fun j => Qgt_bool (combined row j) conf_thres)
         (seq 0 (length row - 5)).

(** The expansion in the words of the specification: one
    DetectionCandidate per class whose combined confidence exceeds the
    threshold. *)
Definition detections_of (conf_thres : Q) (row : list Q) : list (list Q) :=
  map (detection_candidate row) (classes_over conf_thres row).

(** [x[i]] for the list [i] returned by [_nms(x[:, :5], iou_threshold)]:
    the suppression step on a table of DetectionCandidates. *)
Definition suppress (iou_threshold : Q) (x : list (list Q)) : list (list Q) :=
  gather x (_nms (map (firstn 5) x) iou_threshold).

(** The test [iou <= iou_threshold] of [_nms] for a remaining row [r] and
    the picked row [c], read on the rows instead of their indices. *)
Definition keeps (iou_threshold : Q) (c r : list Q) : bool :=
  Qle_bool (_box_iou (firstn 4 (firstn 5 r)) (firstn 4 (firstn 5 c)))
           iou_threshold.

(** The loop of [_nms] read on rows: what [nms_loop] does to the rows its
    indices stand for. *)
Fixpoint greedy (iou_threshold : Q) (fuel : nat) (rows : list (list Q))
  : list (list Q) :=
  match fuel with
  | 0 => []
  | S fuel' =>
      match rows with
      | [] => []
      | c :: rest =>
          c :: greedy iou_threshold fuel' (filter (keeps iou_threshold c) rest)
      end
  end.

(** Insertion of a row into a list of rows kept ascending by score, and the
    insertion sort it gives: [argsort] read on rows. *)
Fixpoint insert_row (a : list Q) (l : list (list Q)) : list (list Q) :=
  match l with
  | [] => [a]
  | b :: l' =>
      if Qle_bool (col 4 a) (col 4 b) then a :: l else b :: insert_row a l'
  end.

Definition sort_rows (x : list (list Q)) : list (list Q) :=
  fold_right insert_row [] x.


(** Ascending by score. *)
Definition score_le (a b : list Q) : Prop := (col 4 a <= col 4 b)%Q.



(** The table of DetectionCandidates of one image, before the cap. *)
Definition candidates (conf_thres : Q) (rows : list (list Q))
  : list (list Q) :=
  expand conf_thres
    (map scale_conf (filter (fun row => Qgt_bool (col 4 row) conf_thres) rows)).


(** A relabeling of the class ids: column 5 onwards is passed through [f]. *)
Definition relabel (f : Q -> Q) (row : list Q) : list Q :=
  firstn 5 row ++ map f (skipn 5 row).

(** A computation that does not end in a failed [assert]. *)
Definition no_assert {A : Type} (m : result A) : Prop :=
  m <> Raise AssertionError.

(** A candidate row with two classes, both above the default confidence
    threshold. *)
Definition row_two_classes : list Q :=
  [5; 5; 10; 10; 1; 9 # 10; 8 # 10]%Q.

(* ------------------------------------------------------------------ *)
(** ** Concrete inputs used below *)

(** A raw feature map with one anchor slot, one class, one cell along its
    third axis and two along its fourth. *)
Definition feat_1x2 : ndarray :=
  {| shape := [1; 6; 1; 2];
     data := map (fun k => inject_Z (Z.of_nat k)) (seq 0 12) |}.

(** One scale with the single anchor (10, 10), one class, and an input of
    8 x 8 pixels: stride 8 and a grid of one cell. *)
Definition anchors_10 : ndarray :=
  {| shape := [1; 1; 2]; data := [10; 10]%Q |}.

Definition one_class : list string := ["class_0"%string].

(** The raw tensor of that scale: [xy = (0, 0)], [wh = (0.5, 0.5)],
    objectness 1 and class score 1. *)
Definition feat_unit : ndarray :=
  {| shape := [1; 6; 1; 1]; data := [0; 0; 1 # 2; 1 # 2; 1; 1]%Q |}.

(** [feat_unit] after [_reshape_output]. *)
Definition cell_unit : ndarray :=
  {| shape := [1; 1; 1; 1; 6]; data := [0; 0; 1 # 2; 1 # 2; 1; 1]%Q |}.

(** Three scales of three anchors each. *)
Definition anchors_3x3 : ndarray :=
  {| shape := [3; 3; 2];
     data := [ 10 # 8; 13 # 8; 16 # 8; 30 # 8; 33 # 8; 23 # 8;
               30 # 16; 61 # 16; 62 # 16; 45 # 16; 59 # 16; 119 # 16;
               116 # 32; 90 # 32; 156 # 32; 198 # 32; 373 # 32; 326 # 32 ]%Q
  |}.

(** A tensor of the second scale of [anchors_3x3] for an input of 32 x 16
    pixels and one class, after [_reshape_output]: three anchor slots,
    one row and two columns of cells. *)
Definition cells_scale_1 : ndarray :=
  {| shape := [1; 3; 1; 2; 6];
     data := map (fun k => (inject_Z (Z.of_nat k) / 36)%Q) (seq 0 36) |}.

(** The context of an image that was neither scaled nor padded. *)
Definition ctx_identity : context := {| scale := 1; pad := (0, 0)%Q |}.

(** A batch of two images, each the image of [feat_unit]. *)
Definition feat_pair : ndarray :=
  {| shape := [2; 6; 1; 1];
     data := [0; 0; 1 # 2; 1 # 2; 1; 1; 0; 0; 1 # 2; 1 # 2; 1; 1]%Q |}.


(** Two overlapping candidates of one image, one class: A with corners
    (0, 0, 10, 10) and score 0.9, B with corners (0, 5, 10, 10) and score
    0.8; their IoU is just under 0.5. *)
Definition pred_two_boxes : ndarray :=
  {| shape := [1; 2; 6];
     data := [ 5; 5; 10; 10; 1; 9 # 10;
               5; 15 # 2; 10; 5; 1; 8 # 10 ]%Q |}.

(** Two overlapping DetectionCandidates of different classes. *)
Definition det_class_0 : list Q := [0; 0; 10; 10; 9 # 10; 0]%Q.
Definition det_class_1 : list Q := [0; 5; 10; 10; 8 # 10; 1]%Q.

(* ================================================================== *)
(** * Properties *)

(* ------------------------------------------------------------------ *)
(** ** Indexing *)

Lemma ravel_lt (s idx : list nat) :
  in_bounds idx s -> ravel s idx < size s.
Proof.
  intros H. induction H as [|i d idx' s' Hi _ IH]; simpl.
  - lia.
  - fold (size s'). nia.
Qed.

Lemma unravel_ravel (s idx : list nat) :
  in_bounds idx s -> unravel s (ravel s idx) = idx.
Proof.
  intros H. induction H as [|i d idx' s' Hi Hb IH]; simpl.
  - reflexivity.
  - pose proof (ravel_lt _ _ Hb) as Hr.
    assert (Hpos : size s' <> 0) by lia.
    rewrite Nat.div_add_l by exact Hpos.
    rewrite (Nat.div_small _ _ Hr), Nat.add_0_r.
    rewrite Nat.add_comm, Nat.Div0.mod_add, (Nat.mod_small _ _ Hr).
    now rewrite IH.
Qed.

Lemma nth_map_seq {B : Type} (g : nat -> B) (n k : nat) (d : B) :
  k < n -> nth k (map g (seq 0 n)) d = g k.
Proof.
  intros Hk.
  rewrite (nth_indep _ d (g 0)) by now rewrite length_map, length_seq.
  rewrite (map_nth g (seq 0 n) 0 k), seq_nth by exact Hk.
  reflexivity.
Qed.

Lemma get_tabulate (s : list nat) (f : list nat -> Q) (idx : list nat) :
  in_bounds idx s -> get (tabulate s f) idx = f idx.
Proof.
  intros H. unfold get, tabulate; simpl.
  rewrite nth_map_seq by now apply ravel_lt.
  now rewrite unravel_ravel.
Qed.

Lemma in_bounds_cons (i d : nat) (idx s : list nat) :
  i < d -> in_bounds idx s -> in_bounds (i :: idx) (d :: s).
Proof. intros; now constructor. Qed.

Lemma in_bounds_nil : in_bounds [] [].
Proof. constructor. Qed.

Create HintDb bounds.
#[local] Hint Resolve in_bounds_cons in_bounds_nil : bounds.

Ltac bounds := repeat (apply in_bounds_cons; [lia|]); apply in_bounds_nil.

Lemma length_tabulate (s : list nat) (f : list nat -> Q) :
  length (data (tabulate s f)) = size s.
Proof. unfold tabulate; simpl. now rewrite length_map, length_seq. Qed.

Lemma get_map_arr (f : Q -> Q) (t : ndarray) (idx : list nat) :
  ravel (shape t) idx < length (data t) ->
  get (map_arr f t) idx = f (get t idx).
Proof.
  intros H. unfold get, map_arr; simpl.
  rewrite (nth_indep _ 0%Q (f 0%Q)) by now rewrite length_map.
  apply map_nth.
Qed.

Lemma get_map_tabulate (f : Q -> Q) (s : list nat) (g : list nat -> Q)
    (idx : list nat) :
  in_bounds idx s -> get (map_arr f (tabulate s g)) idx = f (g idx).
Proof.
  intros H. rewrite get_map_arr, get_tabulate; trivial.
  rewrite length_tabulate. now apply ravel_lt.
Qed.

Lemma bcomp_lt (d i : nat) : i < d -> (if d =? 1 then 0 else i) = i.
Proof. intros H. destruct (Nat.eqb_spec d 1); lia. Qed.

Lemma get_arange (n c : nat) :
  c < n -> get (arange n) [c] = inject_Z (Z.of_nat c).
Proof.
  intros H. unfold get, arange; simpl.
  rewrite Nat.mul_1_r, Nat.add_0_r.
  now apply (nth_map_seq (fun k => inject_Z (Z.of_nat k))).
Qed.

(* ------------------------------------------------------------------ *)
(** ** Grids and decoding *)

Lemma size_one (n : nat) : size [n] = n.
Proof. simpl. lia. Qed.

Lemma shape_eqb_refl (s : list nat) : shape_eqb s s = true.
Proof. unfold shape_eqb. destruct (list_eq_dec Nat.eq_dec s s); congruence. Qed.

Lemma make_grid_spec (anchors : ndarray) (stride : list Q)
    (L A nx ny i : nat) :
  shape anchors = [L; A; 2] ->
  length (data anchors) = size [L; A; 2] ->
  i < L ->
  exists g ag,
    make_grid anchors stride A nx ny i = Ok (g, ag) /\
    shape g = [1; A; ny; nx; 2] /\
    shape ag = [1; A; ny; nx; 2] /\
    forall a r c, a < A -> r < ny -> c < nx ->
      get g [0; a; r; c; 0] = (inject_Z (Z.of_nat c) - (1 # 2))%Q /\
      get g [0; a; r; c; 1] = (inject_Z (Z.of_nat r) - (1 # 2))%Q /\
      forall k, k < 2 ->
        get ag [0; a; r; c; k] = (get anchors [i; a; k] * nth i stride 0)%Q.
Proof.
  intros Hs Hlen Hi. unfold make_grid, meshgrid_ij, stack2_axis2.
  cbn [shape arange tabulate]. rewrite shape_eqb_refl.
  cbn [length Nat.eqb andb bind].
  unfold broadcast_to at 1. cbn [shape tabulate app rev can_broadcast_rev].
  rewrite !size_one, !Nat.eqb_refl. cbn [orb andb bind].
  unfold subarray. rewrite Hs, (proj2 (Nat.ltb_lt i L) Hi). cbn [bind].
  unfold reshape. cbn [shape map_arr].
  assert (Hsz : (size [1; A; 1; 1; 2] =? size [A; 2]) = true).
  { apply Nat.eqb_eq. simpl. lia. }
  rewrite Hsz. cbn [bind].
  unfold broadcast_to. cbn [shape rev app can_broadcast_rev].
  rewrite !Nat.eqb_refl, !orb_true_r. cbn [orb andb bind].
  do 2 eexists. split; [reflexivity|]. split; [reflexivity|].
  split; [reflexivity|].
  intros a r c Ha Hr Hc.
  assert (Hb : forall k, k < 2 -> in_bounds [0; a; r; c; k] [1; A; ny; nx; 2])
    by (intros; bounds).
  assert (Hgrid : forall k, k < 2 ->
            get (map_arr (fun v : Q => (v - (1 # 2))%Q)
                   (tabulate [1; A; ny; nx; 2]
                      (fun idx => get
                         (tabulate [ny; nx; 2]
                            (fun idx0 => match last idx0 0 with
                               | 0 => get (tabulate [ny; nx]
                                        (fun idx1 => get (arange nx) [nth 1 idx1 0]))
                                        (removelast idx0)
                               | S _ => get (tabulate [ny; nx]
                                        (fun idx1 => get (arange ny) [nth 0 idx1 0]))
                                        (removelast idx0)
                               end))
                         (bindex [ny; nx; 2] idx))))
                [0; a; r; c; k]
            = (inject_Z (Z.of_nat (match k with O => c | S _ => r end)) - (1 # 2))%Q).
  { intros k Hk. rewrite get_map_tabulate by auto. f_equal.
    unfold bindex. cbn [rev app bindex_rev Nat.eqb].
    rewrite (bcomp_lt nx c Hc), (bcomp_lt ny r Hr).
    rewrite get_tabulate by bounds. cbn [last removelast].
    destruct k as [|k]; rewrite get_tabulate by bounds; cbn [nth];
      now apply get_arange. }
  split; [exact (Hgrid 0 ltac:(lia))|]. split; [exact (Hgrid 1 ltac:(lia))|].
  intros k Hk. rewrite get_tabulate by auto.
  unfold bindex. cbn [rev app bindex_rev Nat.eqb].
  rewrite (bcomp_lt A a Ha).
  unfold get at 1. cbn [shape data map_arr].
  assert (Hin : i * (A * 2) + (a * 2 + k) < length (data anchors)).
  { rewrite Hlen. simpl. nia. }
  rewrite (nth_indep _ 0%Q ((0 * nth i stride 0)%Q)).
  2:{ rewrite length_map, length_firstn, length_skipn. simpl. nia. }
  rewrite (map_nth (fun v => (v * nth i stride 0)%Q)). f_equal.
  rewrite nth_firstn.
  assert (Hlt : (ravel [1; A; 1; 1; 2] [0; a; 0; 0; k] <? size [A; 2]) = true).
  { apply Nat.ltb_lt. simpl. lia. }
  rewrite Hlt, nth_skipn. unfold get. rewrite Hs. f_equal; simpl; lia.
Qed.

Lemma bdim_refl (d : nat) : bdim d d = Ok d.
Proof. unfold bdim. now rewrite Nat.eqb_refl. Qed.

Lemma bdim_1_r (d : nat) : bdim d 1 = Ok d.
Proof. unfold bdim. destruct (Nat.eqb_spec d 1); [reflexivity|]. reflexivity. Qed.

Lemma pick_last_here (t : ndarray) (ts : list ndarray) (pre : list nat)
    (k d : nat) :
  last (shape t) 0 = d -> k < d ->
  pick_last (t :: ts) pre k = get t (pre ++ [k]).
Proof.
  intros Hd Hk. cbn [pick_last]. rewrite Hd.
  now rewrite (proj2 (Nat.ltb_lt k d) Hk).
Qed.

Lemma pick_last_skip (t : ndarray) (ts : list ndarray) (pre : list nat)
    (k d : nat) :
  last (shape t) 0 = d -> d <= k ->
  pick_last (t :: ts) pre k = pick_last ts pre (k - d).
Proof.
  intros Hd Hk. cbn [pick_last]. rewrite Hd.
  now rewrite (proj2 (Nat.ltb_ge k d) Hk).
Qed.

Lemma shape_activate (sigmoid : Q -> Q) (ws : bool) (t : ndarray) :
  shape (activate sigmoid ws t) = shape t.
Proof. now destruct ws. Qed.

Lemma decode_spec (sigmoid : Q -> Q) (ws : bool) (mo g : ndarray) (st : Q)
    (ag : ndarray) (b A ny nx N : nat) :
  shape mo = [b; A; ny; nx; N + 5] ->
  shape g = [1; A; ny; nx; 2] ->
  shape ag = [1; A; ny; nx; 2] ->
  exists y,
    decode sigmoid ws mo g st ag = Ok y /\
    shape y = [b; A; ny; nx; N + 5] /\
    forall n a r c, n < b -> a < A -> r < ny -> c < nx ->
      let x := activate sigmoid ws mo in
      (forall k, k < 2 ->
         get y [n; a; r; c; k]
         = ((get x [n; a; r; c; k] * 2 + get g [0%nat; a; r; c; k]) * st)%Q) /\
      (forall k, k < 2 ->
         get y [n; a; r; c; 2 + k]
         = ((get x [n; a; r; c; (2 + k)%nat] * 2) ^ 2 * get ag [0%nat; a; r; c; k])%Q) /\
      (forall k, 4 <= k < N + 5 ->
         get y [n; a; r; c; k] = get x [n; a; r; c; k]).
Proof.
  intros Hmo Hg Hag. unfold decode.
  set (x := activate sigmoid ws mo).
  assert (Hx : shape x = [b; A; ny; nx; N + 5])
    by (unfold x; now rewrite shape_activate).
  unfold slice_last, broadcast2, broadcast_shapes. rewrite Hx, Hg, Hag.
  cbn [shape map_arr tabulate removelast last app rev bshape_rev].
  replace (Nat.min 2 (N + 5) - 0) with 2 by lia.
  replace (Nat.min 4 (N + 5) - 2) with 2 by lia.
  replace (Nat.min (N + 5) (N + 5) - 4) with (N + 1) by lia.
  rewrite !bdim_refl, bdim_1_r. cbn [bind rev app].
  unfold concatenate_last.
  cbn [shape map_arr tabulate removelast last app forallb].
  rewrite !shape_eqb_refl. cbn [andb map shape map_arr tabulate last].
  replace (list_sum [2; 2; N + 1]) with (N + 5) by (simpl; lia).
  eexists. split; [reflexivity|]. split.
  { reflexivity. }
  intros n a r c Hn Ha Hr Hc. cbv zeta.
  assert (Hb2 : forall k, k < 2 -> in_bounds [n; a; r; c; k] [b; A; ny; nx; 2])
    by (intros; bounds).
  assert (Hbi : forall k, k < 2 ->
            bindex [b; A; ny; nx; 2] [n; a; r; c; k] = [n; a; r; c; k]).
  { intros k Hk. unfold bindex. cbn [rev app bindex_rev Nat.eqb].
    now rewrite (bcomp_lt nx c), (bcomp_lt ny r), (bcomp_lt A a), (bcomp_lt b n). }
  assert (Hbg : forall k, k < 2 ->
            bindex [1; A; ny; nx; 2] [n; a; r; c; k] = [0; a; r; c; k]).
  { intros k Hk. unfold bindex. cbn [rev app bindex_rev Nat.eqb].
    now rewrite (bcomp_lt nx c), (bcomp_lt ny r), (bcomp_lt A a). }
  split; [|split].
  - intros k Hk. rewrite get_tabulate by bounds.
    cbn [removelast last]. rewrite (pick_last_here _ _ _ _ 2) by (trivial; lia).
    cbn [app]. rewrite get_map_tabulate by auto.
    rewrite Hbi, Hbg by exact Hk. rewrite get_map_tabulate by auto.
    cbn [removelast last app]. now rewrite Nat.add_0_r.
  - intros k Hk. rewrite get_tabulate by bounds.
    cbn [removelast last].
    rewrite (pick_last_skip _ _ _ _ 2) by (trivial; lia).
    rewrite (pick_last_here _ _ _ _ 2) by (trivial; lia).
    replace (2 + k - 2) with k by lia.
    cbn [app]. rewrite get_tabulate by auto.
    rewrite Hbi, Hbg by exact Hk. rewrite get_map_tabulate by auto.
    cbn [removelast last app]. now rewrite (Nat.add_comm k 2).
  - intros k Hk. rewrite get_tabulate by bounds.
    cbn [removelast last].
    rewrite (pick_last_skip _ _ _ _ 2) by (trivial; lia).
    rewrite (pick_last_skip _ _ _ _ 2) by (trivial; lia).
    rewrite (pick_last_here _ _ _ _ (N + 1)) by (trivial; lia).
    cbn [app]. rewrite get_tabulate by bounds.
    cbn [removelast last app]. f_equal. repeat f_equal. lia.
Qed.

Lemma mapM_ok {A B : Type} (f : A -> result B) (l : list A) :
  (forall a, In a l -> exists b, f a = Ok b) ->
  exists bs, mapM f l = Ok bs /\ Forall2 (fun a b => f a = Ok b) l bs.
Proof.
  induction l as [|a l IH]; intros H; simpl.
  - exists []. split; [reflexivity|constructor].
  - destruct (H a (or_introl eq_refl)) as [b Hb].
    destruct IH as [bs [Hbs HF]]; [intros; apply H; now right|].
    rewrite Hb, Hbs. simpl. exists (b :: bs). split; [reflexivity|].
    now constructor.
Qed.

Lemma Forall2_nth_error {A B : Type} (R : A -> B -> Prop) (l : list A)
    (bs : list B) (i : nat) (a : A) :
  Forall2 R l bs -> nth_error l i = Some a ->
  exists b, nth_error bs i = Some b /\ R a b.
Proof.
  intros HF. revert i. induction HF as [|x y l bs Hxy _ IH]; intros i Hi.
  - destruct i; discriminate.
  - destruct i as [|i]; simpl in *.
    + injection Hi as <-. now exists y.
    + now apply IH.
Qed.

(** C2: for the processor built from an anchor table of shape
    [(L, A, 2)], every scale index [i < L], every image [n], anchor slot
    [a], row [r] and column [c] of a feature map whose spatial size is the
    grid of that scale, the decoded tensor [y] of scale [i] satisfies
    [xy = (xy_raw * 2 + (c - 0.5, r - 0.5)) * stride_i] and
    [wh = (wh_raw * 2)^2 * (anchor[i][a] * stride_i)] with
    [stride_i = 8 * 2^i], which is the stride the processor holds for the
    scale, and its objectness and class channels are those of the tensor
    entering the decode step (the raw tensor, or its sigmoid when
    [with_sigmoid] is set).  The row [r] is the index along the third axis
    of the tensor [_reshape_output] returns, the column [c] the index
    along its fourth axis. *)
Theorem decode_formula (sigmoid : Q -> Q) (anchors : ndarray)
    (class_names : list string) (input_shape : nat * nat)
    (L A i b : nat) (with_sigmoid : bool) (model_output : ndarray) :
  shape anchors = [L; A; 2] ->
  length (data anchors) = size (shape anchors) ->
  i < L ->
  let N := length class_names in
  let nx := fst input_shape / (8 * 2 ^ i) in
  let ny := snd input_shape / (8 * 2 ^ i) in
  let stride_i := inject_Z (8 * 2 ^ Z.of_nat i) in
  shape model_output = [b; A; ny; nx; N + 5] ->
  exists self g ag y,
    init anchors class_names input_shape = Ok self /\
    nth_error (grid self) i = Some g /\
    nth_error (stride self) i = Some stride_i /\
    nth_error (anchor_grid self) i = Some ag /\
    decode sigmoid with_sigmoid model_output g stride_i ag = Ok y /\
    shape y = [b; A; ny; nx; N + 5] /\
    forall n a r c, n < b -> a < A -> r < ny -> c < nx ->
      let x := activate sigmoid with_sigmoid model_output in
      get y [n; a; r; c; 0]
      = ((get x [n; a; r; c; 0%nat] * 2
          + (inject_Z (Z.of_nat c) - (1 # 2))) * stride_i)%Q /\
      get y [n; a; r; c; 1]
      = ((get x [n; a; r; c; 1%nat] * 2
          + (inject_Z (Z.of_nat r) - (1 # 2))) * stride_i)%Q /\
      get y [n; a; r; c; 2]
      = ((get x [n; a; r; c; 2%nat] * 2) ^ 2
         * (get anchors [i; a; 0%nat] * stride_i))%Q /\
      get y [n; a; r; c; 3]
      = ((get x [n; a; r; c; 3%nat] * 2) ^ 2
         * (get anchors [i; a; 1%nat] * stride_i))%Q /\
      forall k, 4 <= k < N + 5 ->
        get y [n; a; r; c; k] = get x [n; a; r; c; k].
Proof.
  intros Hs Hlen Hi N nx ny stride_i Hmo. rewrite Hs in Hlen.
  change stride_i with (stride_of i). clear stride_i.
  set (st := map stride_of (seq 0 L)).
  set (nx_ny := map (fun j => (fst input_shape / (8 * 2 ^ j),
                               snd input_shape / (8 * 2 ^ j))) (seq 0 L)).
  destruct (mapM_ok
              (fun j => make_grid anchors st A (fst (nth j nx_ny (0, 0)))
                          (snd (nth j nx_ny (0, 0))) j) (seq 0 L))
    as [gs [Hgs HF]].
  { intros j Hj. apply in_seq in Hj.
    destruct (make_grid_spec anchors st L A (fst (nth j nx_ny (0, 0)))
                (snd (nth j nx_ny (0, 0))) j Hs Hlen) as [g [ag [H _]]];
      [lia|]. now exists (g, ag). }
  assert (Hnth : nth_error (seq 0 L) i = Some i).
  { rewrite nth_error_nth' with (d := 0) by now rewrite length_seq.
    now rewrite seq_nth. }
  destruct (Forall2_nth_error _ _ _ _ _ HF Hnth) as [[g ag] [Hgag Hmk]].
  cbv beta in Hmk.
  assert (Hxy : nth i nx_ny (0, 0) = (nx, ny)).
  { unfold nx_ny. now rewrite nth_map_seq. }
  rewrite Hxy in Hmk. cbn [fst snd] in Hmk.
  destruct (make_grid_spec anchors st L A nx ny i Hs Hlen Hi)
    as [g' [ag' [Hmk' [Hg [Hag Hval]]]]].
  rewrite Hmk in Hmk'. injection Hmk' as <- <-.
  assert (Hst : nth i st 0%Q = stride_of i).
  { unfold st. now rewrite nth_map_seq. }
  destruct (decode_spec sigmoid with_sigmoid model_output g (stride_of i) ag
              b A ny nx N Hmo Hg Hag) as [y [Hy [Hsy Hget]]].
  eexists. exists g, ag, y.
  split.
  { unfold init. rewrite Hs. unfold init_grid. fold st. fold nx_ny.
    rewrite Hgs. cbn [bind]. reflexivity. }
  cbn [grid stride anchor_grid].
  split. { rewrite nth_error_map, Hgag. reflexivity. }
  split. { fold st. unfold st. rewrite nth_error_map, Hnth. reflexivity. }
  split. { rewrite nth_error_map, Hgag. reflexivity. }
  split; [exact Hy|]. split; [exact Hsy|].
  intros n a r c Hn Ha Hr Hc.
  destruct (Hget n a r c Hn Ha Hr Hc) as [Hxy' [Hwh Hconf]].
  destruct (Hval a r c Ha Hr Hc) as [Hg0 [Hg1 Hagk]].
  repeat split.
  - rewrite (Hxy' 0) by lia. now rewrite Hg0.
  - rewrite (Hxy' 1) by lia. now rewrite Hg1.
  - pose proof (Hwh 0 ltac:(lia)) as H2. cbn [Nat.add] in H2.
    rewrite H2, (Hagk 0) by lia. now rewrite Hst.
  - pose proof (Hwh 1 ltac:(lia)) as H3. cbn [Nat.add] in H3.
    rewrite H3, (Hagk 1) by lia. now rewrite Hst.
  - intros k Hk. now apply Hconf.
Qed.

Lemma decode_formula_witness :
  exists self g ag y,
    init anchors_3x3 one_class (32, 16) = Ok self /\
    nth_error (grid self) 1 = Some g /\
    nth_error (stride self) 1 = Some 16%Q /\
    nth_error (anchor_grid self) 1 = Some ag /\
    decode (fun v => v) false cells_scale_1 g 16 ag = Ok y /\
    get y [0; 2; 0; 1; 0]
    = ((get cells_scale_1 [0; 2; 0; 1; 0]%nat * 2 + (1 - (1 # 2))) * 16)%Q /\
    get y [0; 2; 0; 1; 1]
    = ((get cells_scale_1 [0; 2; 0; 1; 1]%nat * 2 + (0 - (1 # 2))) * 16)%Q /\
    get y [0; 2; 0; 1; 2]
    = ((get cells_scale_1 [0; 2; 0; 1; 2]%nat * 2) ^ 2
       * (get anchors_3x3 [1; 2; 0]%nat * 16))%Q.
Proof.
  destruct (decode_formula (fun v => v) anchors_3x3 one_class (32, 16)
              3 3 1 1 false cells_scale_1 eq_refl eq_refl
              (le_n_S 1 2 (le_S 1 1 (le_n 1))) eq_refl)
    as (self & g & ag & y & Hinit & Hg & Hst & Hag & Hy & _ & Hget).
  exists self, g, ag, y.
  destruct (Hget 0 2 0 1 (Nat.lt_0_succ 0) (Nat.lt_succ_diag_r 2)
              (Nat.lt_0_succ 0) (Nat.lt_succ_diag_r 1))
    as (H0 & H1 & H2 & _).
  repeat split; assumption.
Defined.

(* ------------------------------------------------------------------ *)
(** ** The end-to-end scenario *)

(** C3, as stated, fails: on the scenario input the pipeline does not
    return the single detection [(-9, -9, 1, 1, 1.0, 0)]. *)
Lemma end_to_end_not_minus_9 :
  ~ (exists self d,
        init anchors_10 one_class (8, 8) = Ok self /\
        call (fun v => v) self [feat_unit] [ctx_identity]
             conf_thres_default iou_thres_default false = Ok [[d]] /\
        Forall2 Qeq d [-9; -9; 1; 1; 1; 0]%Q).
Proof.
  intros (self & d & Hinit & Hcall & Hd).
  vm_compute in Hinit. injection Hinit as <-.
  vm_compute in Hcall. injection Hcall as <-.
  inversion Hd as [|? ? ? ? Hq _]. vm_compute in Hq. discriminate.
Qed.

(** C3, amended: with a single scale, the anchor (10, 10), stride 8, a
    grid of one cell, [with_sigmoid = false], raw values [xy = (0, 0)],
    [wh = (0.5, 0.5)], objectness 1 and one class score 1, with
    [conf_thres = 0.25], scale ratio 1 and no padding, the pipeline returns
    exactly one detection, [(-44, -44, 36, 36, 1.0, 0)]: the anchor is
    multiplied by the stride, so the decoded box is 80 wide and high. *)
Theorem end_to_end_scenario (sigmoid : Q -> Q) :
  exists self d,
    init anchors_10 one_class (8, 8) = Ok self /\
    call sigmoid self [feat_unit] [ctx_identity]
         conf_thres_default iou_thres_default false = Ok [[d]] /\
    Forall2 Qeq d [-44; -44; 36; 36; 1; 0]%Q.
Proof.
  eexists. eexists. split; [vm_compute; reflexivity|].
  split; [vm_compute; reflexivity|].
  repeat constructor.
Qed.

(* ------------------------------------------------------------------ *)
(** ** [_reshape_output] *)

(** C6, as stated, fails: for the raw feature map [feat_1x2], of shape
    (batch 1, 1 * (1 + 5) channels, 1 width-cell, 2 height-cells), the
    result of [_reshape_output] does not have the shape
    (1, 1, 2 height-cells, 1 width-cell, 6): the two spatial axes are not
    exchanged. *)
Lemma reshape_output_axes_not_swapped :
  exists r, _reshape_output feat_1x2 1 1 = Ok r /\
            shape r = [1; 1; 1; 2; 6] /\
            shape r <> [1; 1; 2; 1; 6].
Proof.
  eexists. split; [reflexivity|]. split; [reflexivity|]. discriminate.
Qed.

(** C6, amended: for a raw feature map of shape
    [(b, A * (N + 5), w, h)], [_reshape_output] succeeds with a tensor of
    shape [(b, A, w, h, N + 5)]: the anchor slot becomes an axis of its own,
    the two spatial axes keep the order they have in the raw tensor, the
    channel axis is last, and entry [(i, a, x, y, c)] is entry
    [(i, a * (N + 5) + c, x, y)] of the raw tensor. *)
Theorem reshape_output_layout (feat : ndarray) (b A N w h : nat) :
  shape feat = [b; A * (N + 5); w; h] ->
  exists r,
    _reshape_output feat A N = Ok r /\
    shape r = [b; A; w; h; N + 5] /\
    forall i a x y c,
      i < b -> a < A -> x < w -> y < h -> c < N + 5 ->
      get r [i; a; x; y; c] = get feat [i; a * (N + 5) + c; x; y].
Proof.
  intros Hs. unfold _reshape_output, reshape. rewrite Hs.
  assert (Hsz : (size [b; A; N + 5; w; h] =? size [b; A * (N + 5); w; h]) = true).
  { apply Nat.eqb_eq. simpl. ring. }
  rewrite Hsz. cbn [bind]. unfold transpose_01342. cbn [shape].
  eexists. split; [reflexivity|]. split; [reflexivity|].
  intros i a x y c Hi Ha Hx Hy Hc.
  rewrite get_tabulate by bounds.
  unfold get. cbn [shape data]. rewrite Hs.
  f_equal. simpl. ring.
Qed.

Lemma reshape_output_layout_witness :
  shape feat_1x2 = [1; 1 * (1 + 5); 1; 2] /\
  exists r,
    _reshape_output feat_1x2 1 1 = Ok r /\
    shape r = [1; 1; 1; 2; 1 + 5] /\
    forall i a x y c,
      i < 1 -> a < 1 -> x < 1 -> y < 2 -> c < 1 + 5 ->
      get r [i; a; x; y; c] = get feat_1x2 [i; a * (1 + 5) + c; x; y].
Proof.
  split; [reflexivity|].
  apply (reshape_output_layout feat_1x2 1 1 1 1 2). reflexivity.
Defined.

(* ------------------------------------------------------------------ *)
(** ** The expansion into DetectionCandidates *)

Lemma filter_cons_head (j0 : nat) (b : bool) (bs : list bool) (l : list nat) :
  filter (fun j => nth (j - j0) (b :: bs) false) (j0 :: l)
  = (if b then [j0] else []) ++
    filter (fun j => nth (j - j0) (b :: bs) false) l.
Proof. cbn [filter]. rewrite Nat.sub_diag. cbn [nth]. now destruct b. Qed.

Lemma where_row_seq (i j0 : nat) (bs : list bool) :
  where_row i j0 bs
  = map (pair i) (filter (fun j => nth (j - j0) bs false)
                         (seq j0 (length bs))).
Proof.
  revert j0. induction bs as [|b bs IH]; intros j0; [reflexivity|].
  assert (E : filter (fun j => nth (j - j0) (b :: bs) false)
                     (seq (S j0) (length bs))
              = filter (fun j => nth (j - S j0) bs false)
                       (seq (S j0) (length bs))).
  { apply filter_ext_in. intros j Hj. apply in_seq in Hj.
    replace (j - j0) with (S (j - S j0)) by lia. reflexivity. }
  cbn [where_row length seq]. rewrite IH.
  rewrite (filter_cons_head j0). rewrite E.
  now destruct b.
Qed.

Lemma col_firstn (k n : nat) (row : list Q) :
  k < n -> col k (firstn n row) = col k row.
Proof.
  intros H. unfold col. rewrite nth_firstn.
  now rewrite (proj2 (Nat.ltb_lt k n) H).
Qed.

Lemma xywh2xyxy_row_firstn (row : list Q) :
  xywh2xyxy_row (firstn 4 row) = xywh2xyxy_row row.
Proof. unfold xywh2xyxy_row. now rewrite !col_firstn by lia. Qed.

Lemma col_scale_conf_low (k : nat) (row : list Q) :
  k < 5 -> col k (scale_conf row) = col k row.
Proof.
  intros Hk. unfold scale_conf, col.
  destruct (Nat.le_gt_cases 5 (length row)) as [Hl|Hl].
  - rewrite app_nth1 by (rewrite length_firstn; lia).
    rewrite nth_firstn. now rewrite (proj2 (Nat.ltb_lt k 5) Hk).
  - rewrite skipn_all2, firstn_all2 by lia. cbn [map]. now rewrite app_nil_r.
Qed.

Lemma length_scale_conf (row : list Q) :
  length (scale_conf row) = length row.
Proof.
  unfold scale_conf. rewrite length_app, length_map, <- length_app.
  now rewrite firstn_skipn.
Qed.

Lemma col_scale_conf_high (j : nat) (row : list Q) :
  j < length row - 5 -> col (j + 5) (scale_conf row) = combined row j.
Proof.
  intros Hj. unfold scale_conf, combined, col.
  rewrite app_nth2; rewrite length_firstn; [|lia].
  replace (j + 5 - Nat.min 5 (length row)) with j by lia.
  rewrite (nth_indep _ 0%Q ((0 * nth 4 row 0)%Q))
    by (rewrite length_map, length_skipn; lia).
  rewrite (map_nth (fun c => (c * nth 4 row 0)%Q)), nth_skipn.
  now rewrite (Nat.add_comm 5 j).
Qed.

(** What [expand] emits for the row at position [length pre]. *)
Lemma expand_rows (conf_thres : Q) (x : list (list Q)) :
  expand conf_thres (map scale_conf x) = flat_map (detections_of conf_thres) x.
Proof.
  unfold expand, np_where, xywh2xyxy.
  set (sx := map scale_conf x).
  assert (G : forall pre rest, x = pre ++ rest ->
            map (fun '(i, j) =>
                   nth i (map xywh2xyxy_row (map (firstn 4) sx)) [] ++
                   [col (j + 5) (nth i sx []); inject_Z (Z.of_nat j)])
                (where_from (length pre)
                   (map (fun row => map (fun v => Qgt_bool v conf_thres)
                                        (skipn 5 row))
                        (map scale_conf rest)))
            = flat_map (detections_of conf_thres) rest).
  { intros pre rest. revert pre.
    induction rest as [|r rest IH]; intros pre Hx; [reflexivity|].
    cbn [map where_from flat_map]. rewrite map_app. f_equal.
    - rewrite where_row_seq, map_map.
      rewrite length_map, length_skipn, length_scale_conf.
      unfold detections_of, classes_over.
      assert (Hr : nth (length pre) sx [] = scale_conf r).
      { unfold sx. rewrite Hx, map_app. cbn [map].
        rewrite app_nth2 by (rewrite length_map; lia).
        now rewrite length_map, Nat.sub_diag. }
      assert (Hb : nth (length pre) (map xywh2xyxy_row (map (firstn 4) sx)) []
                   = xywh2xyxy_row r).
      { rewrite map_map.
        rewrite (nth_indep _ [] (xywh2xyxy_row (firstn 4 []))).
        2:{ rewrite length_map. unfold sx. rewrite Hx, length_map, length_app.
            simpl. lia. }
        rewrite (map_nth (fun row => xywh2xyxy_row (firstn 4 row))), Hr.
        rewrite xywh2xyxy_row_firstn. unfold xywh2xyxy_row.
        now rewrite !col_scale_conf_low by lia. }
      rewrite Hr, Hb.
      assert (E : filter (fun j => nth (j - 0)
                            (map (fun v => Qgt_bool v conf_thres)
                                 (skipn 5 (scale_conf r))) false)
                         (seq 0 (length r - 5))
                  = filter (fun j => Qgt_bool (combined r j) conf_thres)
                           (seq 0 (length r - 5))).
      { apply filter_ext_in. intros j Hj. apply in_seq in Hj.
        rewrite Nat.sub_0_r.
        rewrite (nth_indep _ false (Qgt_bool 0 conf_thres))
          by (rewrite length_map, length_skipn, length_scale_conf; lia).
        rewrite (map_nth (fun v => Qgt_bool v conf_thres)), nth_skipn.
        rewrite <- (col_scale_conf_high j r) by lia.
        unfold col. now rewrite (Nat.add_comm 5 j). }
      rewrite E. apply map_ext_in. intros j Hj.
      apply filter_In in Hj. destruct Hj as [Hj _]. apply in_seq in Hj.
      unfold detection_candidate. now rewrite col_scale_conf_high by lia.
    - specialize (IH (pre ++ [r])). rewrite length_app in IH. cbn [length] in IH.
      rewrite Nat.add_1_r in IH. apply IH. now rewrite <- app_assoc. }
  apply (G [] x). reflexivity.
Qed.

Lemma filter_none {A : Type} (p : A -> bool) (l : list A) :
  (forall a, In a l -> p a = false) -> filter p l = [].
Proof.
  induction l as [|a l IH]; intros H; [reflexivity|]. cbn [filter].
  rewrite (H a (or_introl eq_refl)). apply IH. intros; apply H; now right.
Qed.

Lemma filter_seq_two (p : nat -> bool) (n j1 j2 : nat) :
  j1 < j2 < n ->
  (forall j, j < n -> p j = true <-> j = j1 \/ j = j2) ->
  filter p (seq 0 n) = [j1; j2].
Proof.
  intros Hlt Hp.
  replace n with (j1 + (1 + ((j2 - j1 - 1) + (1 + (n - j2 - 1))))) by lia.
  rewrite !seq_app, !filter_app. cbn [seq filter].
  assert (Hf : forall a b, (forall j, a <= j < a + b -> j <> j1 /\ j <> j2) ->
                 a + b <= n -> filter p (seq a b) = []).
  { intros a b Hab Hn. apply filter_none. intros j Hj. apply in_seq in Hj.
    destruct (p j) eqn:E; [|reflexivity].
    apply Hp in E; [|lia]. destruct (Hab j Hj). lia. }
  rewrite (Hf 0 j1), (Hf (0 + j1 + 1)), (Hf (0 + j1 + 1 + (j2 - j1 - 1) + 1))
    by (try (intros; lia); lia).
  replace (0 + j1 + 1 + (j2 - j1 - 1)) with j2 by lia.
  rewrite (proj2 (Hp (0 + j1) ltac:(lia))) by lia.
  rewrite (proj2 (Hp j2 ltac:(lia))) by lia.
  reflexivity.
Qed.

(** C9: the candidates kept by the objectness test are expanded into one
    DetectionCandidate [(x1, y1, x2, y2, class_score * objectness,
    class_id)] per class whose combined confidence exceeds [conf_thres]:
    each such class exactly once, no other class; a candidate with exactly
    two such classes yields exactly two DetectionCandidates, with the same
    corners and the two class ids. *)
Theorem multi_label_expansion (conf_thres : Q) (rows : list (list Q)) :
  let kept := filter (fun row => Qgt_bool (col 4 row) conf_thres) rows in
  expand conf_thres (map scale_conf kept)
  = flat_map (fun row => map (detection_candidate row)
                             (classes_over conf_thres row)) kept /\
  (forall row,
     NoDup (classes_over conf_thres row) /\
     forall j, In j (classes_over conf_thres row) <->
               j < length row - 5 /\
               Qgt_bool (combined row j) conf_thres = true) /\
  (forall row j1 j2,
     j1 < j2 < length row - 5 ->
     (forall j, j < length row - 5 ->
                Qgt_bool (combined row j) conf_thres = true <->
                j = j1 \/ j = j2) ->
     map (detection_candidate row) (classes_over conf_thres row)
     = [xywh2xyxy_row row ++ [combined row j1; inject_Z (Z.of_nat j1)];
        xywh2xyxy_row row ++ [combined row j2; inject_Z (Z.of_nat j2)]]).
Proof.
  intros kept. split; [apply expand_rows|]. split.
  - intros row. unfold classes_over. split.
    + apply NoDup_filter, seq_NoDup.
    + intros j. rewrite filter_In, in_seq. intuition lia.
  - intros row j1 j2 Hlt Hp. unfold classes_over.
    now rewrite (filter_seq_two _ _ j1 j2 Hlt Hp).
Qed.

Lemma multi_label_expansion_witness :
  map (detection_candidate row_two_classes)
      (classes_over conf_thres_default row_two_classes)
  = [xywh2xyxy_row row_two_classes ++
       [combined row_two_classes 0; inject_Z (Z.of_nat 0)];
     xywh2xyxy_row row_two_classes ++
       [combined row_two_classes 1; inject_Z (Z.of_nat 1)]].
Proof.
  refine (proj2 (proj2 (multi_label_expansion conf_thres_default
                          [row_two_classes])) row_two_classes 0 1 _ _).
  - simpl. lia.
  - intros j Hj. simpl in Hj.
    destruct j as [|[|j]]; [| |lia]; vm_compute; intuition (try discriminate; lia).
Defined.

(* ------------------------------------------------------------------ *)
(** ** The suppression step *)

Lemma nms_loop_step (boxes : list (list Q)) (thr : Q) (fuel current : nat)
    (rest : list nat) :
  nms_loop boxes thr (S fuel) (current :: rest)
  = current :: nms_loop boxes thr fuel
      (filter (fun r => Qle_bool (_box_iou (nth r boxes [])
                                           (nth current boxes [])) thr) rest).
Proof.
  cbn [nms_loop]. destruct rest as [|r rest]; [|reflexivity].
  cbn [filter]. now destruct fuel.
Qed.

Lemma gather_filter {A : Type} (x : list (list A)) (q : list A -> bool)
    (idxs : list nat) :
  gather x (filter (fun i => q (nth i x [])) idxs) = filter q (gather x idxs).
Proof.
  unfold gather. induction idxs as [|i idxs IH]; [reflexivity|].
  cbn [filter map]. destruct (q (nth i x [])); cbn [map]; now rewrite IH.
Qed.

Lemma nth_boxes (x : list (list Q)) (i : nat) :
  nth i (map (firstn 4) (map (firstn 5) x)) []
  = firstn 4 (firstn 5 (nth i x [])).
Proof.
  rewrite map_map.
  apply (map_nth (fun r => firstn 4 (firstn 5 r)) x [] i).
Qed.

Lemma gather_nms_loop (x : list (list Q)) (thr : Q) (fuel : nat)
    (idxs : list nat) :
  gather x (nms_loop (map (firstn 4) (map (firstn 5) x)) thr fuel idxs)
  = greedy thr fuel (gather x idxs).
Proof.
  revert idxs. induction fuel as [|fuel IH]; intros idxs; [reflexivity|].
  destruct idxs as [|c rest]; [reflexivity|].
  rewrite nms_loop_step. cbn [gather map greedy]. f_equal.
  fold (gather x rest).
  rewrite <- (gather_filter x (keeps thr (nth c x []))).
  fold (gather x (nms_loop (map (firstn 4) (map (firstn 5) x)) thr fuel
     (filter (fun r => Qle_bool (_box_iou
          (nth r (map (firstn 4) (map (firstn 5) x)) [])
          (nth c (map (firstn 4) (map (firstn 5) x)) [])) thr) rest))).
  rewrite IH. do 2 f_equal. apply filter_ext. intros r.
  unfold keeps. now rewrite !nth_boxes.
Qed.

(** [argsort] read on rows. *)
Lemma gather_insert_by (x : list (list Q)) (i : nat) (l : list nat) :
  gather x (insert_by (fun k => nth k (map (col 4) x) 0%Q) i l)
  = insert_row (nth i x []) (gather x l).
Proof.
  assert (K : forall k, nth k (map (col 4) x) 0%Q = col 4 (nth k x [])).
  { intros k. apply (map_nth (col 4) x [] k). }
  induction l as [|j l IH]; [reflexivity|].
  cbn [insert_by gather map insert_row]. rewrite !K.
  destruct (Qle_bool (col 4 (nth i x [])) (col 4 (nth j x []))).
  - reflexivity.
  - cbn [map]. f_equal. exact IH.
Qed.

Lemma gather_seq {A : Type} (pre rest : list (list A)) :
  gather (pre ++ rest) (seq (length pre) (length rest)) = rest.
Proof.
  revert pre. induction rest as [|r rest IH]; intros pre; [reflexivity|].
  cbn [length seq gather map]. rewrite nth_middle. f_equal.
  specialize (IH (pre ++ [r])).
  rewrite <- app_assoc, length_app in IH. cbn [length app] in IH.
  rewrite Nat.add_1_r in IH. exact IH.
Qed.

Lemma gather_argsort (x : list (list Q)) :
  gather x (argsort (map (col 4) x)) = sort_rows x.
Proof.
  unfold argsort, sort_rows. rewrite length_map.
  assert (G : forall pre rest, x = pre ++ rest ->
            gather x (fold_right (insert_by (fun k => nth k (map (col 4) x) 0%Q))
                        [] (seq (length pre) (length rest)))
            = fold_right insert_row [] rest).
  { intros pre rest. revert pre.
    induction rest as [|r rest IH]; intros pre Hx; [reflexivity|].
    cbn [length seq fold_right]. rewrite gather_insert_by.
    f_equal.
    - rewrite Hx. apply nth_middle.
    - specialize (IH (pre ++ [r])). rewrite length_app in IH.
      cbn [length] in IH. rewrite Nat.add_1_r in IH. apply IH.
      now rewrite <- app_assoc. }
  apply (G [] x). reflexivity.
Qed.

Lemma gather_rev {A : Type} (x : list (list A)) (idxs : list nat) :
  gather x (rev idxs) = rev (gather x idxs).
Proof. unfold gather. apply map_rev. Qed.

Lemma length_insert_by (key : nat -> Q) (i : nat) (l : list nat) :
  length (insert_by key i l) = S (length l).
Proof.
  induction l as [|j l IH]; [reflexivity|].
  cbn [insert_by]. destruct (Qle_bool (key i) (key j)); cbn [length]; lia.
Qed.

Lemma length_argsort (s : list Q) : length (argsort s) = length s.
Proof.
  unfold argsort.
  transitivity (length (seq 0 (length s))); [|apply length_seq].
  induction (seq 0 (length s)) as [|i l IH]; [reflexivity|].
  cbn [fold_right]. rewrite length_insert_by. cbn [length]. now rewrite IH.
Qed.

Lemma scores_firstn (x : list (list Q)) :
  map (col 4) (map (firstn 5) x) = map (col 4) x.
Proof.
  rewrite map_map. apply map_ext. intros r. apply col_firstn. lia.
Qed.

(** The suppression step, read on rows: the rows are taken in descending
    order of score and filtered greedily. *)
Lemma suppress_greedy (thr : Q) (x : list (list Q)) :
  suppress thr x = greedy thr (length x) (rev (sort_rows x)).
Proof.
  unfold suppress, _nms. rewrite gather_nms_loop, scores_firstn.
  rewrite length_rev, length_argsort, length_map.
  now rewrite gather_rev, gather_argsort.
Qed.

(** Sortedness of [sort_rows]. *)

Lemma insert_row_perm (a : list Q) (l : list (list Q)) :
  Permutation (insert_row a l) (a :: l).
Proof.
  induction l as [|b l IH]; [reflexivity|]. cbn [insert_row].
  destruct (Qle_bool (col 4 a) (col 4 b)); [reflexivity|].
  rewrite IH. apply perm_swap.
Qed.

Lemma sort_rows_perm (x : list (list Q)) : Permutation (sort_rows x) x.
Proof.
  induction x as [|a x IH]; [reflexivity|]. cbn [sort_rows fold_right].
  rewrite insert_row_perm. now constructor.
Qed.

Lemma insert_row_sorted (a : list Q) (l : list (list Q)) :
  StronglySorted score_le l -> StronglySorted score_le (insert_row a l).
Proof.
  intros Hs. induction Hs as [|b l Hs IH Hb]; cbn [insert_row].
  - repeat constructor.
  - destruct (Qle_bool (col 4 a) (col 4 b)) eqn:E.
    + apply Qle_bool_iff in E. constructor; [now constructor|].
      constructor; [exact E|].
      eapply Forall_impl; [|exact Hb]. intros c Hc. unfold score_le in *.
      now apply Qle_trans with (col 4 b).
    + constructor; [exact IH|].
      assert (Hba : score_le b a).
      { unfold score_le. destruct (Qlt_le_dec (col 4 b) (col 4 a)) as [H|H].
        - now apply Qlt_le_weak.
        - apply Qle_bool_iff in H. congruence. }
      eapply Permutation_Forall; [symmetry; apply insert_row_perm|].
      now constructor.
Qed.

Lemma sort_rows_sorted (x : list (list Q)) :
  StronglySorted score_le (sort_rows x).
Proof.
  induction x as [|a x IH]; [constructor|].
  cbn [sort_rows fold_right]. now apply insert_row_sorted.
Qed.

(** Symmetry of the overlap measure. *)

Lemma box_iou_sym (b1 b2 : list Q) : (_box_iou b1 b2 == _box_iou b2 b1)%Q.
Proof.
  unfold _box_iou, _box_area. cbn [col nth].
  rewrite (Q.max_comm (col 0 b1) (col 0 b2)), (Q.max_comm (col 1 b1) (col 1 b2)).
  rewrite (Q.min_comm (col 2 b1) (col 2 b2)), (Q.min_comm (col 3 b1) (col 3 b2)).
  set (o := (Qmax _ 0 * Qmax _ 0)%Q).
  set (a1 := (Qmax _ 0 * Qmax _ 0)%Q).
  set (a2 := (Qmax _ 0 * Qmax _ 0)%Q).
  assert (E : (a1 + a2 - o + eps == a2 + a1 - o + eps)%Q) by ring.
  now rewrite E.
Qed.

Lemma keeps_sym (thr : Q) (a b : list Q) : keeps thr a b = keeps thr b a.
Proof. unfold keeps. now rewrite box_iou_sym. Qed.

(** The greedy loop. *)

Lemma greedy_Forall (P : list Q -> Prop) (thr : Q) (fuel : nat)
    (rows : list (list Q)) :
  Forall P rows -> Forall P (greedy thr fuel rows).
Proof.
  revert rows. induction fuel as [|fuel IH]; intros rows H; [constructor|].
  destruct rows as [|c rest]; [constructor|]. cbn [greedy].
  inversion H as [|? ? Hc Hrest]; subst. constructor; [exact Hc|].
  apply IH. apply Forall_forall. intros r Hr. apply filter_In in Hr.
  rewrite Forall_forall in Hrest. now apply Hrest.
Qed.

(** No row that [greedy] returns overlaps an earlier one by more than the
    threshold. *)
Lemma greedy_pairwise (thr : Q) (fuel : nat) (rows : list (list Q)) :
  ForallOrdPairs (fun c r => keeps thr c r = true) (greedy thr fuel rows).
Proof.
  revert rows. induction fuel as [|fuel IH]; intros rows; [constructor|].
  destruct rows as [|c rest]; [constructor|]. cbn [greedy].
  constructor; [|apply IH].
  apply greedy_Forall. apply Forall_forall. intros r Hr.
  now apply filter_In in Hr.
Qed.

Lemma filter_all {A : Type} (p : A -> bool) (l : list A) :
  Forall (fun a => p a = true) l -> filter p l = l.
Proof.
  induction 1 as [|a l Ha _ IH]; [reflexivity|].
  cbn [filter]. now rewrite Ha, IH.
Qed.

(** Rows that do not overlap pairwise are all returned. *)
Lemma greedy_fixed (thr : Q) (fuel : nat) (rows : list (list Q)) :
  ForallOrdPairs (fun c r => keeps thr c r = true) rows ->
  length rows <= fuel ->
  greedy thr fuel rows = rows.
Proof.
  revert rows. induction fuel as [|fuel IH]; intros rows H Hl.
  - destruct rows; [reflexivity|simpl in Hl; lia].
  - destruct rows as [|c rest]; [reflexivity|]. cbn [greedy].
    inversion H as [|? ? Hc Hrest]; subst.
    rewrite (filter_all _ _ Hc). f_equal. apply IH; [exact Hrest|].
    simpl in Hl. lia.
Qed.

Lemma ForallOrdPairs_perm {A : Type} (R : A -> A -> Prop) (l l' : list A) :
  (forall a b, R a b -> R b a) ->
  Permutation l l' -> ForallOrdPairs R l -> ForallOrdPairs R l'.
Proof.
  intros Hsym Hp. induction Hp as [|x l l' Hp IH|x y l|l l' l'' _ IH1 _ IH2];
    intros H.
  - constructor.
  - inversion H as [|? ? Hx Hl]; subst. constructor.
    + eapply Permutation_Forall; eassumption.
    + now apply IH.
  - inversion H as [|? ? Hy Hrest]; subst.
    inversion Hrest as [|? ? Hx Hl]; subst.
    inversion Hy as [|? ? Hyx Hyl]; subst.
    constructor; [constructor; [now apply Hsym|exact Hx]|].
    now constructor.
  - now apply IH2, IH1.
Qed.

(** C8: running the suppression step on its own output, with the same
    [iou_threshold], returns the same detections (each as many times as
    before), whatever the table and the threshold. *)
Theorem nms_idempotent (iou_threshold : Q) (x : list (list Q)) :
  Permutation (suppress iou_threshold (suppress iou_threshold x))
              (suppress iou_threshold x).
Proof.
  set (s := suppress iou_threshold x).
  assert (Hs : ForallOrdPairs (fun c r => keeps iou_threshold c r = true) s).
  { unfold s. rewrite suppress_greedy. apply greedy_pairwise. }
  assert (Hp : Permutation (rev (sort_rows s)) s).
  { rewrite <- Permutation_rev. apply sort_rows_perm. }
  rewrite (suppress_greedy iou_threshold s), greedy_fixed.
  - exact Hp.
  - apply ForallOrdPairs_perm with (l := s); [|now symmetry|exact Hs].
    intros a b H. now rewrite keeps_sym.
  - apply Nat.eq_le_incl, Permutation_length. exact Hp.
Qed.

(* ------------------------------------------------------------------ *)
(** ** Independence of the class ids *)

Lemma firstn_relabel (f : Q -> Q) (row : list Q) :
  firstn 5 (relabel f row) = firstn 5 row.
Proof.
  unfold relabel. rewrite firstn_app, firstn_firstn, length_firstn.
  replace (5 - Nat.min 5 (length row)) with (5 - length row) by lia.
  destruct (Nat.le_gt_cases 5 (length row)) as [H|H].
  - replace (5 - length row) with 0 by lia. cbn [firstn Nat.min].
    now rewrite app_nil_r.
  - rewrite skipn_all2 by lia. cbn [map]. rewrite firstn_nil.
    now rewrite app_nil_r.
Qed.

Lemma gather_map {A : Type} (g : list A -> list A) (x : list (list A))
    (idxs : list nat) :
  g [] = [] -> gather (map g x) idxs = map g (gather x idxs).
Proof.
  intros Hg. unfold gather. rewrite map_map. apply map_ext. intros i.
  rewrite <- Hg at 1. apply map_nth.
Qed.

(** C7: the rows that the suppression step picks depend on the columns
    [(x1, y1, x2, y2, score)] alone: two tables that agree on them give the
    same picked indices, and relabeling the class ids of a table relabels
    the survivors and changes nothing else.  In particular the candidate
    [det_class_0] suppresses the overlapping, lower-scored candidate
    [det_class_1] of another class. *)
Theorem nms_class_agnostic :
  (forall iou_threshold x x',
     map (firstn 5) x = map (firstn 5) x' ->
     _nms (map (firstn 5) x) iou_threshold
     = _nms (map (firstn 5) x') iou_threshold) /\
  (forall f iou_threshold x,
     suppress iou_threshold (map (relabel f) x)
     = map (relabel f) (suppress iou_threshold x)) /\
  (col 5 det_class_0 <> col 5 det_class_1 /\
   (col 4 det_class_1 < col 4 det_class_0)%Q /\
   suppress iou_threshold_default [det_class_0; det_class_1]
   = [det_class_0]).
Proof.
  split; [|split].
  - intros thr x x' H. now rewrite H.
  - intros f thr x. unfold suppress.
    assert (E : map (firstn 5) (map (relabel f) x) = map (firstn 5) x).
    { rewrite map_map. apply map_ext. intros r. apply firstn_relabel. }
    rewrite E. now apply gather_map.
  - split; [discriminate|]. split; [reflexivity|]. vm_compute. reflexivity.
Qed.

Lemma nms_class_agnostic_witness :
  _nms (map (firstn 5) [det_class_0; det_class_1]) iou_threshold_default
  = _nms (map (firstn 5) (map (relabel (fun _ => 7%Q))
                              [det_class_0; det_class_1]))
         iou_threshold_default.
Proof.
  apply (proj1 nms_class_agnostic). reflexivity.
Defined.

(* ------------------------------------------------------------------ *)
(** ** The confidence threshold *)

Lemma Qgt_bool_iff (a b : Q) : Qgt_bool a b = true <-> (b < a)%Q.
Proof.
  unfold Qgt_bool. rewrite negb_true_iff. split.
  - intros H. apply Qnot_le_lt. intros Hle. apply Qle_bool_iff in Hle. congruence.
  - intros H. destruct (Qle_bool a b) eqn:E; [|reflexivity].
    apply Qle_bool_iff in E. apply Qlt_not_le in H. contradiction.
Qed.


Lemma nms_image_suppress (conf_thres : Q) (rows : list (list Q)) :
  nms_image conf_thres rows
  = suppress iou_threshold_default (cap (candidates conf_thres rows)).
Proof.
  unfold nms_image, candidates.
  destruct (filter _ rows) as [|r kept]; [reflexivity|].
  cbv zeta. destruct (expand conf_thres (map scale_conf (r :: kept)));
    reflexivity.
Qed.

Lemma candidates_rows (conf_thres : Q) (rows : list (list Q)) :
  candidates conf_thres rows
  = flat_map (fun row => if Qgt_bool (col 4 row) conf_thres
                         then detections_of conf_thres row else []) rows.
Proof.
  unfold candidates. rewrite expand_rows.
  induction rows as [|r rows IH]; [reflexivity|]. cbn [filter flat_map].
  destruct (Qgt_bool (col 4 r) conf_thres); cbn [flat_map app]; now rewrite IH.
Qed.






(** Prefixes. *)









(** Tables without equal scores. *)

Lemma StronglySorted_rev {A : Type} (R : A -> A -> Prop) (l : list A) :
  StronglySorted R l -> StronglySorted (fun a b => R b a) (rev l).
Proof.
  intros Hs. induction Hs as [|a l Hs IH Ha]; [constructor|]. cbn [rev].
  clear Hs. revert IH. generalize (Forall_rev Ha). clear Ha.
  induction (rev l) as [|b m IHm]; intros Hf IH.
  - repeat constructor.
  - cbn [app]. inversion IH as [|? ? Hm Hb]; subst.
    inversion Hf as [|? ? Hab Hf']; subst.
    constructor; [now apply IHm|].
    apply Forall_app. split; [exact Hb|]. now repeat constructor.
Qed.

Lemma In_firstn {A : Type} (n : nat) (l : list A) (a : A) :
  In a (firstn n l) -> In a l.
Proof.
  intros H. rewrite <- (firstn_skipn n l). apply in_or_app. now left.
Qed.

















(** On an array of three axes the general reading of the images is the
    one [non_max_suppression] uses for the shape [__call__] passes. *)
Lemma table_rows_three_axes (t : ndarray) (n c xi : nat) :
  table_rows t [n] c xi = image_rows t n c xi.
Proof.
  unfold table_rows, image_rows. rewrite size_one.
  apply map_ext. intros j. apply map_ext. intros k.
  cbn [unravel size fold_right app]. now rewrite Nat.div_1_r.
Qed.

Lemma in_unit_iff (t : Q) : in_unit t = true <-> (0 <= t <= 1)%Q.
Proof.
  unfold in_unit. rewrite andb_true_iff, !Qle_bool_iff. reflexivity.
Qed.






(* ------------------------------------------------------------------ *)
(** ** The overlap threshold *)

(** C1, on the failing input: with [iou_thres = 0.9], the candidate [b] of
    [pred_two_boxes] has an IoU of less than 0.5 with the picked candidate
    [a], which does not exceed [iou_thres]; suppression with the cutoff
    [iou_thres] keeps it, and [non_max_suppression] discards it, since it
    calls [_nms] without the argument and the cutoff is the default
    0.45. *)
Lemma nms_ignores_iou_thres :
  exists a b,
    candidates (1 # 4) (image_rows pred_two_boxes 2 6 0) = [a; b] /\
    (_box_iou (firstn 4 b) (firstn 4 a) <= 9 # 10)%Q /\
    suppress (9 # 10) [a; b] = [a; b] /\
    non_max_suppression pred_two_boxes (1 # 4) (9 # 10) = Ok [[a]].
Proof.
  do 2 eexists. split; [vm_compute; reflexivity|].
  split; [vm_compute; discriminate|].
  split; vm_compute; reflexivity.
Qed.


(* ------------------------------------------------------------------ *)
(** ** Batches *)

(** C5, on the failing input: a batch of two images raises [ValueError] in
    the flattening [np.reshape(y, (1, ...))], whose leading length is the
    constant 1, while each of the two images alone is processed. *)
Lemma batch_of_two_raises :
  exists self d,
    init anchors_10 one_class (8, 8) = Ok self /\
    call (fun v => v) self [feat_pair] [ctx_identity; ctx_identity]
         conf_thres_default iou_thres_default false = Raise ValueError /\
    call (fun v => v) self [feat_unit] [ctx_identity]
         conf_thres_default iou_thres_default false = Ok [[d]].
Proof.
  do 2 eexists. split; [vm_compute; reflexivity|].
  split; vm_compute; reflexivity.
Qed.


(* ------------------------------------------------------------------ *)
(** ** The assertions on the thresholds *)

Lemma no_assert_bind {A B : Type} (m : result A) (k : A -> result B) :
  no_assert m -> (forall a, m = Ok a -> no_assert (k a)) ->
  no_assert (bind m k).
Proof.
  unfold no_assert. intros Hm Hk. destruct m as [a|e]; cbn [bind].
  - now apply Hk.
  - intros [= ->]. now apply Hm.
Qed.

Lemma no_assert_mapM {A B : Type} (f : A -> result B) (l : list A) :
  (forall a, no_assert (f a)) -> no_assert (mapM f l).
Proof.
  intros Hf. induction l as [|a l IH]; [discriminate|]. cbn [mapM].
  apply no_assert_bind; [apply Hf|]. intros b _.
  apply no_assert_bind; [exact IH|]. discriminate.
Qed.

Ltac no_assert_cases :=
  unfold no_assert;
  repeat match goal with
         | |- context [match ?x with _ => _ end] => destruct x
         | |- context [if ?x then _ else _] => destruct x
         end;
  discriminate.

Lemma no_assert_reshape (t : ndarray) (s : list nat) :
  no_assert (reshape t s).
Proof. unfold reshape. no_assert_cases. Qed.

Lemma no_assert_reshape_output (feat : ndarray) (a n : nat) :
  no_assert (_reshape_output feat a n).
Proof.
  unfold _reshape_output.
  destruct (shape feat) as [|? [|? [|? [|? ?]]]]; try discriminate.
  apply no_assert_bind; [apply no_assert_reshape|]. intros r _.
  unfold transpose_01342. no_assert_cases.
Qed.

Lemma no_assert_broadcast2 (f : Q -> Q -> Q) (a b : ndarray) :
  no_assert (broadcast2 f a b).
Proof.
  unfold broadcast2, broadcast_shapes.
  assert (H : forall s1 s2, no_assert (bshape_rev s1 s2)).
  { induction s1 as [|d1 s1 IH]; intros s2; [discriminate|].
    destruct s2 as [|d2 s2]; [discriminate|]. cbn [bshape_rev].
    apply no_assert_bind; [unfold bdim; no_assert_cases|]. intros d _.
    apply no_assert_bind; [apply IH|]. discriminate. }
  apply no_assert_bind; [|discriminate].
  apply no_assert_bind; [apply H|]. discriminate.
Qed.

Lemma no_assert_concatenate_last (ts : list ndarray) :
  no_assert (concatenate_last ts).
Proof.
  unfold concatenate_last. destruct ts as [|t0 rest]; [discriminate|].
  destruct (shape t0); [discriminate|].
  destruct (forallb _ rest); discriminate.
Qed.

Lemma no_assert_decode_layer (sigmoid : Q -> Q)
    (self : YOLOv5PythonPostProcessor) (ws : bool)
    (layer : ndarray * ndarray * Q * ndarray) :
  no_assert (decode_layer sigmoid self ws layer).
Proof.
  destruct layer as [[[mo g] st] ag]. unfold decode_layer.
  destruct (shape mo) as [|? [|? [|? [|? [|? [|? ?]]]]]]; try discriminate.
  apply no_assert_bind; [|intros; apply no_assert_reshape].
  unfold decode.
  apply no_assert_bind; [apply no_assert_broadcast2|]. intros xy _.
  apply no_assert_bind; [apply no_assert_broadcast2|]. intros wh _.
  apply no_assert_concatenate_last.
Qed.

Lemma no_assert_concatenate_axis1 (ts : list ndarray) :
  no_assert (concatenate_axis1 ts).
Proof.
  unfold concatenate_axis1. destruct ts as [|t0 rest]; [discriminate|].
  destruct (shape t0) as [|? [|? [|? [|? ?]]]]; try discriminate.
  destruct (forallb _ (t0 :: rest)); discriminate.
Qed.

Lemma no_assert_decode_all (sigmoid : Q -> Q)
    (self : YOLOv5PythonPostProcessor) (mos : list ndarray) (ws : bool) :
  no_assert (decode_all sigmoid self mos ws).
Proof.
  unfold decode_all.
  apply no_assert_bind.
  { apply no_assert_mapM. intros f. apply no_assert_reshape_output. }
  intros feats _. apply no_assert_bind.
  { apply no_assert_mapM. intros l. apply no_assert_decode_layer. }
  intros outs _. apply no_assert_concatenate_axis1.
Qed.

Lemma no_assert_remap (i : nat) (preds : list (list (list Q)))
    (contexts : list context) :
  no_assert (remap i preds contexts).
Proof.
  revert i. induction preds as [|p preds IH]; intros i; [discriminate|].
  cbn [remap]. destruct (nth_error contexts i); [|discriminate].
  destruct (Qeq_bool (scale c) 0); [discriminate|].
  apply no_assert_bind; [apply IH|]. discriminate.
Qed.

(** The shape of what [__call__] hands to [non_max_suppression]. *)
Lemma mapM_inv {A B : Type} (f : A -> result B) (l : list A) (bs : list B) :
  mapM f l = Ok bs -> Forall (fun b => exists a, f a = Ok b) bs.
Proof.
  revert bs. induction l as [|a l IH]; intros bs H; cbn [mapM] in H.
  - injection H as <-. constructor.
  - destruct (f a) as [b|e] eqn:Ea; [|discriminate]. cbn [bind] in H.
    destruct (mapM f l) as [bs'|e]; [|discriminate]. cbn [bind] in H.
    injection H as <-. constructor; [now exists a|]. now apply IH.
Qed.

Lemma reshape_shape (t : ndarray) (s : list nat) (r : ndarray) :
  reshape t s = Ok r -> shape r = s.
Proof.
  unfold reshape. destruct (size s =? size (shape t)); [|discriminate].
  now intros [= <-].
Qed.

Lemma decode_layer_shape (sigmoid : Q -> Q)
    (self : YOLOv5PythonPostProcessor) (ws : bool)
    (layer : ndarray * ndarray * Q * ndarray) (t : ndarray) :
  decode_layer sigmoid self ws layer = Ok t ->
  exists n, shape t = [1; n; length (class_names self) + 5].
Proof.
  destruct layer as [[[mo g] st] ag]. unfold decode_layer.
  destruct (shape mo) as [|? [|? [|nx [|ny [|? [|? ?]]]]]]; try discriminate.
  destruct (decode sigmoid ws mo g st ag) as [y|e]; [|discriminate].
  cbn [bind]. intros H. apply reshape_shape in H. eauto.
Qed.

Lemma decode_all_shape (sigmoid : Q -> Q)
    (self : YOLOv5PythonPostProcessor) (mos : list ndarray) (ws : bool)
    (outputs : ndarray) :
  decode_all sigmoid self mos ws = Ok outputs ->
  exists n, shape outputs = [1; n; length (class_names self) + 5].
Proof.
  unfold decode_all.
  destruct (mapM _ mos) as [feats|e]; [|discriminate]. cbn [bind].
  destruct (mapM (decode_layer sigmoid self ws) _) as [outs|e] eqn:E;
    [|discriminate]. cbn [bind].
  apply mapM_inv in E. unfold concatenate_axis1.
  destruct outs as [|t0 rest]; [discriminate|].
  inversion E as [|? ? [layer Hl] _]; subst.
  destruct (decode_layer_shape _ _ _ _ _ Hl) as [n Hn]. rewrite Hn.
  destruct (forallb _ (t0 :: rest)); [|discriminate].
  intros [= <-]. cbn [shape tabulate]. eauto.
Qed.

Lemma non_max_suppression_assert (prediction : ndarray) (b n c : nat)
    (conf_thres iou_thres : Q) :
  shape prediction = [b; n; c] -> 5 <= c ->
  (non_max_suppression prediction conf_thres iou_thres = Raise AssertionError
   <-> ~ (0 <= conf_thres <= 1)%Q \/ ~ (0 <= iou_thres <= 1)%Q).
Proof.
  intros Hs Hc. unfold non_max_suppression.
  rewrite Hs, (proj2 (Nat.leb_gt c 4) Hc).
  rewrite <- !in_unit_iff.
  destruct (in_unit conf_thres), (in_unit iou_thres); cbn [negb];
    split; intros H; try reflexivity; try discriminate;
    try (left; discriminate); try (right; discriminate);
    destruct H as [H|H]; now elim H.
Qed.

(** C10: a call whose [conf_thres] or [iou_thres] lies outside [0, 1]
    returns no detections, and ends in the failed assertion of
    [non_max_suppression] whenever the tensors could be decoded; a call
    whose thresholds lie inside [0, 1] never fails that assertion.  On
    every prediction of shape [(b, n, c)] with [c >= 5],
    [non_max_suppression] fails the assertion exactly when a threshold is
    outside [0, 1]. *)
Theorem thresholds_asserted (sigmoid : Q -> Q)
    (self : YOLOv5PythonPostProcessor) (model_outputs : list ndarray)
    (contexts : list context) (conf_thres iou_thres : Q)
    (with_sigmoid : bool) :
  (~ (0 <= conf_thres <= 1)%Q \/ ~ (0 <= iou_thres <= 1)%Q ->
   (forall r, call sigmoid self model_outputs contexts conf_thres iou_thres
                   with_sigmoid <> Ok r) /\
   (is_ok (decode_all sigmoid self model_outputs with_sigmoid) = true ->
    call sigmoid self model_outputs contexts conf_thres iou_thres
         with_sigmoid = Raise AssertionError)) /\
  ((0 <= conf_thres <= 1)%Q -> (0 <= iou_thres <= 1)%Q ->
   call sigmoid self model_outputs contexts conf_thres iou_thres
        with_sigmoid <> Raise AssertionError) /\
  (forall prediction b n c,
     shape prediction = [b; n; c] -> 5 <= c ->
     (non_max_suppression prediction conf_thres iou_thres
      = Raise AssertionError
      <-> ~ (0 <= conf_thres <= 1)%Q \/ ~ (0 <= iou_thres <= 1)%Q)).
Proof.
  split; [|split].
  - intros Hbad. unfold call.
    destruct (decode_all sigmoid self model_outputs with_sigmoid)
      as [outputs|e] eqn:E; cbn [bind is_ok].
    + destruct (decode_all_shape _ _ _ _ _ E) as [n Hn].
      assert (Hnms : non_max_suppression outputs conf_thres iou_thres
                     = Raise AssertionError).
      { apply (non_max_suppression_assert outputs 1 n _ _ _ Hn); [lia|].
        exact Hbad. }
      rewrite Hnms. cbn [bind]. split; [discriminate|reflexivity].
    + split; [discriminate|discriminate].
  - intros H1 H2. unfold call. apply no_assert_bind.
    { apply no_assert_decode_all. }
    intros outputs E. apply no_assert_bind.
    + destruct (decode_all_shape _ _ _ _ _ E) as [n Hn].
      intros Hnms.
      apply (non_max_suppression_assert outputs 1 n _ _ _ Hn) in Hnms; [|lia].
      tauto.
    + intros dets _. apply no_assert_remap.
  - intros prediction b n c. apply non_max_suppression_assert.
Qed.

Lemma thresholds_asserted_witness :
  exists self,
    init anchors_10 one_class (8, 8) = Ok self /\
    call (fun v => v) self [feat_unit] [ctx_identity] (3 # 2)
         iou_thres_default false = Raise AssertionError /\
    call (fun v => v) self [feat_unit] [ctx_identity] conf_thres_default
         iou_thres_default false <> Raise AssertionError.
Proof.
  eexists. split; [vm_compute; reflexivity|]. split.
  - apply (proj1 (thresholds_asserted (fun v => v) _ [feat_unit]
                    [ctx_identity] (3 # 2) iou_thres_default false)).
    + left. intros [_ H]. apply H. reflexivity.
    + reflexivity.
  - apply (proj1 (proj2 (thresholds_asserted (fun v => v) _ [feat_unit]
                           [ctx_identity] conf_thres_default
                           iou_thres_default false)));
      split; discriminate.
Defined.

(* ================================================================== *)
(** * Further properties of the code *)

(* ------------------------------------------------------------------ *)
(** ** Boxes and their overlap *)

(** The area of a box [(x1, y1, x2, y2)] as [_box_iou] computes it. *)
Lemma box_area_corners (b : list Q) :
  _box_area (firstn 2 b) (skipn 2 b)
  = (Qmax (col 2 b - col 0 b) 0 * Qmax (col 3 b - col 1 b) 0)%Q.
Proof.
  unfold _box_area, col. rewrite !nth_skipn, !nth_firstn. reflexivity.
Qed.

Lemma Qmax_0_nonneg (a : Q) : (0 <= Qmax a 0)%Q.
Proof. apply Q.le_max_r. Qed.

(** The clipped extent of an intersection is at most that of either side. *)
Lemma overlap_extent_le (l1 r1 l2 r2 : Q) :
  (Qmax (Qmin r1 r2 - Qmax l1 l2) 0 <= Qmax (r1 - l1) 0)%Q.
Proof.
  destruct (Q.max_spec (Qmin r1 r2 - Qmax l1 l2) 0) as [[_ ->]|[_ ->]];
    [apply Qmax_0_nonneg|].
  apply Qle_trans with (r1 - l1)%Q; [|apply Q.le_max_l].
  pose proof (Q.le_min_l r1 r2). pose proof (Q.le_max_l l1 l2). lra.
Qed.

Lemma box_area_nonneg (lt rb : list Q) : (0 <= _box_area lt rb)%Q.
Proof. unfold _box_area. apply Qmult_le_0_compat; apply Qmax_0_nonneg. Qed.

Lemma Qmult_le_compat_nonneg (a b c d : Q) :
  (0 <= a)%Q -> (a <= b)%Q -> (0 <= c)%Q -> (c <= d)%Q -> (a * c <= b * d)%Q.
Proof.
  intros Ha Hab Hc Hcd.
  apply Qle_trans with (b * c)%Q.
  - now apply Qmult_le_compat_r.
  - rewrite (Qmult_comm b c), (Qmult_comm b d).
    apply Qmult_le_compat_r; [exact Hcd|lra].
Qed.

Lemma overlap_le_area1 (b1 b2 : list Q) :
  (_box_area [Qmax (col 0 b1) (col 0 b2); Qmax (col 1 b1) (col 1 b2)]
             [Qmin (col 2 b1) (col 2 b2); Qmin (col 3 b1) (col 3 b2)]
   <= _box_area (firstn 2 b1) (skipn 2 b1))%Q.
Proof.
  rewrite box_area_corners. unfold _box_area. cbn [col nth].
  apply Qmult_le_compat_nonneg; try apply Qmax_0_nonneg;
    apply overlap_extent_le.
Qed.

Lemma overlap_le_area2 (b1 b2 : list Q) :
  (_box_area [Qmax (col 0 b1) (col 0 b2); Qmax (col 1 b1) (col 1 b2)]
             [Qmin (col 2 b1) (col 2 b2); Qmin (col 3 b1) (col 3 b2)]
   <= _box_area (firstn 2 b2) (skipn 2 b2))%Q.
Proof.
  rewrite box_area_corners. unfold _box_area. cbn [col nth].
  rewrite (Q.max_comm (col 0 b1)), (Q.max_comm (col 1 b1)).
  rewrite (Q.min_comm (col 2 b1)), (Q.min_comm (col 3 b1)).
  apply Qmult_le_compat_nonneg; try apply Qmax_0_nonneg;
    apply overlap_extent_le.
Qed.

Lemma eps_pos : (0 < eps)%Q.
Proof. reflexivity. Qed.

(** The denominator of [_box_iou] exceeds the overlap area, which is not
    negative. *)
Lemma box_iou_parts (box1 box2 : list Q) :
  let o := _box_area
             [Qmax (col 0 box1) (col 0 box2); Qmax (col 1 box1) (col 1 box2)]
             [Qmin (col 2 box1) (col 2 box2); Qmin (col 3 box1) (col 3 box2)] in
  let a1 := _box_area (firstn 2 box1) (skipn 2 box1) in
  let a2 := _box_area (firstn 2 box2) (skipn 2 box2) in
  (0 <= o)%Q /\ (o < a1 + a2 - o + eps)%Q.
Proof.
  cbv zeta.
  pose proof (box_area_nonneg
                [Qmax (col 0 box1) (col 0 box2); Qmax (col 1 box1) (col 1 box2)]
                [Qmin (col 2 box1) (col 2 box2); Qmin (col 3 box1) (col 3 box2)]).
  pose proof (overlap_le_area1 box1 box2).
  pose proof (overlap_le_area2 box1 box2).
  pose proof eps_pos. split; lra.
Qed.

Lemma box_iou_le_one (box1 box2 : list Q) : (_box_iou box1 box2 <= 1)%Q.
Proof.
  destruct (box_iou_parts box1 box2) as [Ho Hd]. unfold _box_iou. cbv zeta.
  apply Qle_shift_div_r; lra.
Qed.

(** X1: the overlap measure of any two boxes lies in [0, 1]: it is never
    negative and never above 1, the overlap area being at most the area
    of either box. *)
Theorem box_iou_range (box1 box2 : list Q) :
  (0 <= _box_iou box1 box2)%Q /\ (_box_iou box1 box2 <= 1)%Q.
Proof.
  split; [|apply box_iou_le_one].
  destruct (box_iou_parts box1 box2) as [Ho Hd]. unfold _box_iou. cbv zeta.
  apply Qle_shift_div_l; lra.
Qed.

Lemma Qmax_0_nonpos (a : Q) : (a <= 0)%Q -> (Qmax a 0 == 0)%Q.
Proof. intros H. now apply Q.max_r. Qed.

Lemma box_iou_no_overlap (box1 box2 : list Q) :
  (_box_area [Qmax (col 0 box1) (col 0 box2); Qmax (col 1 box1) (col 1 box2)]
             [Qmin (col 2 box1) (col 2 box2); Qmin (col 3 box1) (col 3 box2)]
   == 0)%Q ->
  (_box_iou box1 box2 == 0)%Q.
Proof.
  intros H. unfold _box_iou. cbv zeta. rewrite H.
  unfold Qdiv. ring.
Qed.

(** X2: two boxes that are separated along the x axis or along the y axis
    (one ends where or before the other starts) have overlap measure 0. *)
Theorem box_iou_disjoint (box1 box2 : list Q) :
  (col 2 box1 <= col 0 box2)%Q \/ (col 2 box2 <= col 0 box1)%Q \/
  (col 3 box1 <= col 1 box2)%Q \/ (col 3 box2 <= col 1 box1)%Q ->
  (_box_iou box1 box2 == 0)%Q.
Proof.
  intros H. apply box_iou_no_overlap. unfold _box_area. cbn [col nth].
  pose proof (Q.le_min_l (col 2 box1) (col 2 box2)).
  pose proof (Q.le_min_r (col 2 box1) (col 2 box2)).
  pose proof (Q.le_max_l (col 0 box1) (col 0 box2)).
  pose proof (Q.le_max_r (col 0 box1) (col 0 box2)).
  pose proof (Q.le_min_l (col 3 box1) (col 3 box2)).
  pose proof (Q.le_min_r (col 3 box1) (col 3 box2)).
  pose proof (Q.le_max_l (col 1 box1) (col 1 box2)).
  pose proof (Q.le_max_r (col 1 box1) (col 1 box2)).
  destruct H as [H|[H|[H|H]]].
  - rewrite (Qmax_0_nonpos (Qmin _ _ - Qmax (col 0 box1) _)) by lra. ring.
  - rewrite (Qmax_0_nonpos (Qmin _ _ - Qmax (col 0 box1) _)) by lra. ring.
  - rewrite (Qmax_0_nonpos (Qmin _ _ - Qmax (col 1 box1) _)) by lra. ring.
  - rewrite (Qmax_0_nonpos (Qmin _ _ - Qmax (col 1 box1) _)) by lra. ring.
Qed.

Lemma box_iou_disjoint_witness :
  (_box_iou [0; 0; 10; 5] [0; 5; 10; 10] == 0)%Q.
Proof.
  apply (box_iou_disjoint [0; 0; 10; 5]%Q [0; 5; 10; 10]%Q).
  right. right. left. discriminate.
Defined.

(** X3: a box without extent (its width or its height is not positive) has
    overlap measure 0 with every box, itself included. *)
Theorem box_iou_degenerate (box1 box2 : list Q) :
  (col 2 box1 <= col 0 box1)%Q \/ (col 3 box1 <= col 1 box1)%Q ->
  (_box_iou box1 box2 == 0)%Q /\ (_box_iou box2 box1 == 0)%Q.
Proof.
  intros H.
  assert (E : (_box_iou box1 box2 == 0)%Q).
  { apply box_iou_no_overlap.
    pose proof (overlap_le_area1 box1 box2) as Hle.
    pose proof (box_area_nonneg
                  [Qmax (col 0 box1) (col 0 box2); Qmax (col 1 box1) (col 1 box2)]
                  [Qmin (col 2 box1) (col 2 box2); Qmin (col 3 box1) (col 3 box2)])
      as Hge.
    rewrite box_area_corners in Hle.
    assert (Ha : (Qmax (col 2 box1 - col 0 box1) 0
                  * Qmax (col 3 box1 - col 1 box1) 0 == 0)%Q).
    { destruct H as [H|H].
      - rewrite (Qmax_0_nonpos (col 2 box1 - col 0 box1)) by lra. ring.
      - rewrite (Qmax_0_nonpos (col 3 box1 - col 1 box1)) by lra. ring. }
    rewrite Ha in Hle. now apply Qle_antisym. }
  split; [exact E|]. now rewrite box_iou_sym.
Qed.

Lemma box_iou_degenerate_witness :
  (_box_iou [3; 3; 3; 8] [0; 0; 10; 10] == 0)%Q /\
  (_box_iou [0; 0; 10; 10] [3; 3; 3; 8] == 0)%Q.
Proof.
  apply (box_iou_degenerate [3; 3; 3; 8]%Q [0; 0; 10; 10]%Q).
  left. discriminate.
Defined.

(** X4: the overlap measure of a box with itself is [area / (area + eps)],
    [area] being its clipped area. *)
Theorem box_iou_self (box : list Q) :
  (_box_iou box box
   == _box_area (firstn 2 box) (skipn 2 box)
      / (_box_area (firstn 2 box) (skipn 2 box) + eps))%Q.
Proof.
  unfold _box_iou. cbv zeta.
  assert (E : (_box_area [Qmax (col 0 box) (col 0 box); Qmax (col 1 box) (col 1 box)]
                         [Qmin (col 2 box) (col 2 box); Qmin (col 3 box) (col 3 box)]
               == _box_area (firstn 2 box) (skipn 2 box))%Q).
  { rewrite box_area_corners. unfold _box_area. cbn [col nth].
    now rewrite !Q.max_id, !Q.min_id. }
  rewrite E.
  set (a := _box_area (firstn 2 box) (skipn 2 box)).
  assert (Hd : (a + a - a + eps == a + eps)%Q) by ring.
  now rewrite Hd.
Qed.

(** X5: the overlap measure does not depend on the order of the two
    boxes. *)
Theorem box_iou_symmetric (box1 box2 : list Q) :
  (_box_iou box1 box2 == _box_iou box2 box1)%Q.
Proof. apply box_iou_sym. Qed.

(** X6: [xywh2xyxy] keeps the number of rows, and the corners it returns
    have the centre and the size of the row they come from: the midpoint
    of the corners is [(cx, cy)] and their difference is [(w, h)]. *)
Theorem xywh2xyxy_centre_size (x : list (list Q)) :
  length (xywh2xyxy x) = length x /\
  forall i, i < length x ->
    let row := nth i x [] in
    let box := nth i (xywh2xyxy x) [] in
    length box = 4 /\
    ((col 0 box + col 2 box) / 2 == col 0 row)%Q /\
    ((col 1 box + col 3 box) / 2 == col 1 row)%Q /\
    (col 2 box - col 0 box == col 2 row)%Q /\
    (col 3 box - col 1 box == col 3 row)%Q.
Proof.
  unfold xywh2xyxy. split; [apply length_map|].
  intros i Hi. cbv zeta.
  rewrite (nth_indep _ [] (xywh2xyxy_row [])) by now rewrite length_map.
  rewrite (map_nth xywh2xyxy_row x [] i).
  unfold xywh2xyxy_row. cbn [col nth length].
  repeat split; field.
Qed.

Lemma xywh2xyxy_centre_size_witness :
  let x := [[5; 5; 10; 10]%Q] in
  let row := nth 0 x [] in
  let box := nth 0 (xywh2xyxy x) [] in
  length box = 4 /\
  ((col 0 box + col 2 box) / 2 == col 0 row)%Q /\
  ((col 1 box + col 3 box) / 2 == col 1 row)%Q /\
  (col 2 box - col 0 box == col 2 row)%Q /\
  (col 3 box - col 1 box == col 3 row)%Q.
Proof.
  exact (proj2 (xywh2xyxy_centre_size [[5; 5; 10; 10]%Q]) 0 (Nat.lt_0_succ 0)).
Defined.

(* ------------------------------------------------------------------ *)
(** ** The indices picked by [_nms] *)

(** [argsort] returns every index once, in ascending order of score. *)
Lemma insert_by_perm (key : nat -> Q) (i : nat) (l : list nat) :
  Permutation (insert_by key i l) (i :: l).
Proof.
  induction l as [|j l IH]; [reflexivity|]. cbn [insert_by].
  destruct (Qle_bool (key i) (key j)); [reflexivity|].
  rewrite IH. apply perm_swap.
Qed.

Lemma argsort_perm (scores : list Q) :
  Permutation (argsort scores) (seq 0 (length scores)).
Proof.
  unfold argsort. induction (seq 0 (length scores)) as [|i l IH];
    [reflexivity|].
  cbn [fold_right]. rewrite insert_by_perm. now constructor.
Qed.

Lemma insert_by_sorted (key : nat -> Q) (i : nat) (l : list nat) :
  StronglySorted (fun a b => (key a <= key b)%Q) l ->
  StronglySorted (fun a b => (key a <= key b)%Q) (insert_by key i l).
Proof.
  intros Hs. induction Hs as [|j l Hs IH Hj]; cbn [insert_by].
  - repeat constructor.
  - destruct (Qle_bool (key i) (key j)) eqn:E.
    + apply Qle_bool_iff in E. constructor; [now constructor|].
      constructor; [exact E|].
      eapply Forall_impl; [|exact Hj]. intros c Hc. cbv beta in *.
      now apply Qle_trans with (key j).
    + constructor; [exact IH|].
      assert (Hji : (key j <= key i)%Q).
      { destruct (Qlt_le_dec (key j) (key i)) as [H|H].
        - now apply Qlt_le_weak.
        - apply Qle_bool_iff in H. congruence. }
      eapply Permutation_Forall; [symmetry; apply insert_by_perm|].
      now constructor.
Qed.

Lemma argsort_sorted (scores : list Q) :
  StronglySorted (fun a b => (nth a scores 0 <= nth b scores 0)%Q)
                 (argsort scores).
Proof.
  unfold argsort. induction (seq 0 (length scores)) as [|i l IH];
    [constructor|].
  cbn [fold_right]. now apply insert_by_sorted.
Qed.

(** What the loop of [_nms] returns is taken from the indices it is
    given. *)
Lemma nms_loop_Forall (P : nat -> Prop) (boxes : list (list Q)) (thr : Q)
    (fuel : nat) (idxs : list nat) :
  Forall P idxs -> Forall P (nms_loop boxes thr fuel idxs).
Proof.
  revert idxs. induction fuel as [|fuel IH]; intros idxs H; [constructor|].
  destruct idxs as [|c rest]; [constructor|]. rewrite nms_loop_step.
  inversion H as [|? ? Hc Hrest]; subst. constructor; [exact Hc|].
  apply IH. apply Forall_forall. intros r Hr. apply filter_In in Hr.
  rewrite Forall_forall in Hrest. now apply Hrest.
Qed.

Lemma nms_loop_incl (boxes : list (list Q)) (thr : Q) (fuel : nat)
    (idxs : list nat) :
  incl (nms_loop boxes thr fuel idxs) idxs.
Proof.
  intros i Hi.
  pose proof (nms_loop_Forall (fun j => In j idxs) boxes thr fuel idxs) as H.
  rewrite !Forall_forall in H. apply H; auto.
Qed.

Lemma nms_loop_NoDup (boxes : list (list Q)) (thr : Q) (fuel : nat)
    (idxs : list nat) :
  NoDup idxs -> NoDup (nms_loop boxes thr fuel idxs).
Proof.
  revert idxs. induction fuel as [|fuel IH]; intros idxs H; [constructor|].
  destruct idxs as [|c rest]; [constructor|]. rewrite nms_loop_step.
  inversion H as [|? ? Hc Hrest]; subst. constructor.
  - intros Hin. apply nms_loop_incl in Hin. apply filter_In in Hin.
    now apply Hc.
  - apply IH. now apply NoDup_filter.
Qed.

Lemma nms_loop_sorted (R : nat -> nat -> Prop) (boxes : list (list Q))
    (thr : Q) (fuel : nat) (idxs : list nat) :
  StronglySorted R idxs -> StronglySorted R (nms_loop boxes thr fuel idxs).
Proof.
  revert idxs. induction fuel as [|fuel IH]; intros idxs H; [constructor|].
  destruct idxs as [|c rest]; [constructor|]. rewrite nms_loop_step.
  inversion H as [|? ? Hrest Hc]; subst. constructor.
  - apply IH. clear IH Hc H.
    induction Hrest as [|a l Hl IHl Ha]; [constructor|]. cbn [filter].
    destruct (Qle_bool _ thr).
    + constructor; [exact IHl|]. apply Forall_forall. intros r Hr.
      apply filter_In in Hr. rewrite Forall_forall in Ha. now apply Ha.
    + exact IHl.
  - apply nms_loop_Forall. apply Forall_forall. intros r Hr.
    apply filter_In in Hr. rewrite Forall_forall in Hc. now apply Hc.
Qed.

Lemma nms_scores (box_scores : list (list Q)) (i : nat) :
  nth i (map (col 4) box_scores) 0%Q = col 4 (nth i box_scores []).
Proof. apply (map_nth (col 4) box_scores [] i). Qed.

(** X7: [_nms] returns distinct indices of rows of its table, in
    descending order of score; it returns none for an empty table and,
    for any other, starts with a row of the highest score. *)
Theorem nms_picks (box_scores : list (list Q)) (iou_threshold : Q) :
  let picked := _nms box_scores iou_threshold in
  NoDup picked /\
  Forall (fun i => i < length box_scores) picked /\
  StronglySorted (fun i j => (col 4 (nth j box_scores [])
                              <= col 4 (nth i box_scores []))%Q) picked /\
  (box_scores = [] -> picked = []) /\
  (box_scores <> [] ->
   exists first rest,
     picked = first :: rest /\
     forall i, i < length box_scores ->
       (col 4 (nth i box_scores []) <= col 4 (nth first box_scores []))%Q).
Proof.
  cbv zeta. unfold _nms.
  set (scores := map (col 4) box_scores).
  set (boxes := map (firstn 4) box_scores).
  assert (Hp : Permutation (rev (argsort scores)) (seq 0 (length box_scores))).
  { rewrite <- Permutation_rev. unfold scores.
    rewrite <- (length_map (col 4) box_scores). apply argsort_perm. }
  assert (Hs : StronglySorted (fun i j => (col 4 (nth j box_scores [])
                                         <= col 4 (nth i box_scores []))%Q)
                 (rev (argsort scores))).
  { pose proof (StronglySorted_rev _ _ (argsort_sorted scores)) as H.
    eapply StronglySorted_ind with (P := fun l => StronglySorted _ l);
      [constructor| |exact H].
    intros a l _ IH Ha. constructor; [exact IH|].
    eapply Forall_impl; [|exact Ha]. intros b Hb. cbv beta in Hb.
    unfold scores in Hb. now rewrite !nms_scores in Hb. }
  split; [|split; [|split; [|split]]].
  - apply nms_loop_NoDup.
    eapply Permutation_NoDup; [symmetry; exact Hp|apply seq_NoDup].
  - apply nms_loop_Forall. apply Forall_forall. intros i Hi.
    eapply Permutation_in in Hi; [|exact Hp]. apply in_seq in Hi. lia.
  - now apply nms_loop_sorted.
  - intros ->. reflexivity.
  - intros Hne.
    destruct (rev (argsort scores)) as [|first rest] eqn:E.
    + apply Permutation_length in Hp. rewrite length_seq in Hp.
      destruct box_scores; [congruence|discriminate].
    + cbn [length]. rewrite nms_loop_step. do 2 eexists.
      split; [reflexivity|]. intros i Hi.
      assert (Hin : In i (first :: rest)).
      { eapply Permutation_in; [symmetry; exact Hp|]. apply in_seq. lia. }
      destruct Hin as [<-|Hin]; [apply Qle_refl|].
      inversion Hs as [|? ? _ Hf]; subst. rewrite Forall_forall in Hf.
      now apply Hf.
Qed.

Lemma nms_picks_witness :
  exists first rest,
    _nms [det_class_0; det_class_1] iou_threshold_default = first :: rest /\
    forall i, i < length [det_class_0; det_class_1] ->
      (col 4 (nth i [det_class_0; det_class_1] [])
       <= col 4 (nth first [det_class_0; det_class_1] []))%Q.
Proof.
  apply (proj2 (proj2 (proj2 (proj2
           (nms_picks [det_class_0; det_class_1] iou_threshold_default))))).
  discriminate.
Defined.

(** Every index given to the loop of [_nms] is returned, or is discarded
    for its overlap with one that is returned. *)
Lemma nms_loop_complete (boxes : list (list Q)) (thr : Q) (fuel : nat)
    (idxs : list nat) (i : nat) :
  length idxs <= fuel -> In i idxs ->
  In i (nms_loop boxes thr fuel idxs) \/
  exists p, In p (nms_loop boxes thr fuel idxs) /\
            (thr < _box_iou (nth i boxes []) (nth p boxes []))%Q.
Proof.
  revert idxs. induction fuel as [|fuel IH]; intros idxs Hl Hi.
  - destruct idxs; [contradiction|simpl in Hl; lia].
  - destruct idxs as [|c rest]; [contradiction|]. rewrite nms_loop_step.
    destruct Hi as [<-|Hi]; [left; now left|].
    destruct (Qle_bool (_box_iou (nth i boxes []) (nth c boxes [])) thr) eqn:E.
    + destruct (IH (filter (fun r => Qle_bool (_box_iou (nth r boxes [])
                                                 (nth c boxes [])) thr) rest))
        as [H|[p [Hp Hiou]]].
      * pose proof (filter_length_le
                      (fun r => Qle_bool (_box_iou (nth r boxes [])
                                            (nth c boxes [])) thr) rest).
        simpl in Hl. lia.
      * apply filter_In. now split.
      * left. now right.
      * right. exists p. split; [now right|exact Hiou].
    + right. exists c. split; [now left|].
      apply Qnot_le_lt. intros Hle. apply Qle_bool_iff in Hle. congruence.
Qed.

(** X8: [_nms] discards a row only for its overlap with a row it returns:
    every index of the table that is not returned has an IoU above
    [iou_threshold] with some returned index, and the returned indices
    overlap each other by at most [iou_threshold]. *)
Theorem nms_maximal (box_scores : list (list Q)) (iou_threshold : Q) :
  let picked := _nms box_scores iou_threshold in
  let iou := fun i j => _box_iou (firstn 4 (nth i box_scores []))
                                 (firstn 4 (nth j box_scores [])) in
  (forall i, i < length box_scores -> ~ In i picked ->
     exists p, In p picked /\ (iou_threshold < iou i p)%Q) /\
  ForallOrdPairs (fun p q => (iou q p <= iou_threshold)%Q) picked.
Proof.
  cbv zeta. unfold _nms.
  set (scores := map (col 4) box_scores).
  assert (Hb : forall i, nth i (map (firstn 4) box_scores) []
                         = firstn 4 (nth i box_scores [])).
  { intros i. apply (map_nth (firstn 4) box_scores [] i). }
  split.
  - intros i Hi Hnot.
    destruct (nms_loop_complete (map (firstn 4) box_scores) iou_threshold
                (length (rev (argsort scores))) (rev (argsort scores)) i)
      as [H|[p [Hp Hiou]]].
    + lia.
    + apply in_rev. rewrite rev_involutive.
      eapply Permutation_in; [symmetry; apply argsort_perm|].
      unfold scores. rewrite length_map. apply in_seq. lia.
    + contradiction.
    + exists p. split; [exact Hp|]. now rewrite !Hb in Hiou.
  - generalize (length (rev (argsort scores))) as fuel.
    generalize (rev (argsort scores)) as idxs.
    intros idxs fuel. revert idxs.
    induction fuel as [|fuel IH]; intros idxs; [constructor|].
    destruct idxs as [|c rest]; [constructor|]. rewrite nms_loop_step.
    constructor; [|apply IH].
    apply nms_loop_Forall. apply Forall_forall. intros r Hr.
    apply filter_In in Hr. destruct Hr as [_ Hr].
    apply Qle_bool_iff in Hr. now rewrite !Hb in Hr.
Qed.

Lemma nms_maximal_witness :
  exists p,
    In p (_nms [det_class_0; det_class_1] iou_threshold_default) /\
    (iou_threshold_default
     < _box_iou (firstn 4 (nth 1 [det_class_0; det_class_1] []))
                (firstn 4 (nth p [det_class_0; det_class_1] [])))%Q.
Proof.
  apply (proj1 (nms_maximal [det_class_0; det_class_1]
                  iou_threshold_default) 1).
  - simpl. lia.
  - vm_compute. intros [H|H]; [discriminate|exact H].
Defined.

Lemma nms_loop_all (boxes : list (list Q)) (thr : Q) (fuel : nat)
    (idxs : list nat) :
  (1 <= thr)%Q -> length idxs <= fuel ->
  nms_loop boxes thr fuel idxs = idxs.
Proof.
  intros Hthr. revert idxs. induction fuel as [|fuel IH]; intros idxs Hl.
  - destruct idxs; [reflexivity|simpl in Hl; lia].
  - destruct idxs as [|c rest]; [reflexivity|]. rewrite nms_loop_step.
    rewrite filter_all.
    + f_equal. apply IH. simpl in Hl. lia.
    + apply Forall_forall. intros r _. apply Qle_bool_iff.
      eapply Qle_trans; [|exact Hthr]. apply box_iou_le_one.
Qed.

(** X9: with an [iou_threshold] of 1 or more [_nms] suppresses nothing: it
    returns every index of the table, in descending order of score. *)
Theorem nms_threshold_one (box_scores : list (list Q)) (iou_threshold : Q) :
  (1 <= iou_threshold)%Q ->
  _nms box_scores iou_threshold = rev (argsort (map (col 4) box_scores)) /\
  Permutation (_nms box_scores iou_threshold) (seq 0 (length box_scores)).
Proof.
  intros H. unfold _nms. rewrite nms_loop_all by (trivial; lia).
  split; [reflexivity|]. rewrite <- Permutation_rev.
  rewrite <- (length_map (col 4) box_scores). apply argsort_perm.
Qed.

Lemma nms_threshold_one_witness :
  Permutation (_nms [det_class_0; det_class_1] 1)
              (seq 0 (length [det_class_0; det_class_1])).
Proof.
  apply (nms_threshold_one [det_class_0; det_class_1] 1). discriminate.
Defined.

(* ------------------------------------------------------------------ *)
(** ** The detections of an image *)

Lemma nms_in_range (box_scores : list (list Q)) (thr : Q) :
  Forall (fun i => i < length box_scores) (_nms box_scores thr).
Proof.
  unfold _nms. apply nms_loop_Forall. apply Forall_forall. intros i Hi.
  apply in_rev in Hi.
  eapply Permutation_in in Hi; [|apply argsort_perm].
  rewrite length_map in Hi. apply in_seq in Hi. lia.
Qed.

Lemma nms_nonempty (box_scores : list (list Q)) (thr : Q) :
  box_scores <> [] -> _nms box_scores thr <> [].
Proof.
  intros Hne. unfold _nms.
  destruct (rev (argsort (map (col 4) box_scores))) as [|c rest] eqn:E.
  - apply (f_equal (@length nat)) in E.
    rewrite length_rev, length_argsort, length_map in E.
    destruct box_scores; [congruence|discriminate].
  - cbn [length]. rewrite nms_loop_step. discriminate.
Qed.

Lemma gather_incl {A : Type} (x : list (list A)) (idxs : list nat) :
  Forall (fun i => i < length x) idxs -> incl (gather x idxs) x.
Proof.
  intros H d Hd. unfold gather in Hd. apply in_map_iff in Hd.
  destruct Hd as [i [<- Hi]]. rewrite Forall_forall in H.
  apply nth_In. now apply H.
Qed.

Lemma suppress_incl (thr : Q) (x : list (list Q)) : incl (suppress thr x) x.
Proof.
  unfold suppress. apply gather_incl.
  pose proof (nms_in_range (map (firstn 5) x) thr) as H.
  now rewrite length_map in H.
Qed.

Lemma suppress_length (thr : Q) (x : list (list Q)) :
  length (suppress thr x) <= length x.
Proof.
  rewrite suppress_greedy.
  assert (H : forall fuel l, length (greedy thr fuel l) <= length l).
  { induction fuel as [|fuel IH]; intros l; [simpl; lia|].
    destruct l as [|c rest]; [simpl; lia|]. cbn [greedy length].
    pose proof (IH (filter (keeps thr c) rest)).
    pose proof (filter_length_le (keeps thr c) rest). lia. }
  rewrite H, length_rev. now rewrite (Permutation_length (sort_rows_perm x)).
Qed.

Lemma suppress_nonempty (thr : Q) (x : list (list Q)) :
  x <> [] -> suppress thr x <> [].
Proof.
  intros Hne. unfold suppress.
  assert (H : _nms (map (firstn 5) x) thr <> []).
  { apply nms_nonempty. destruct x; [congruence|discriminate]. }
  destruct (_nms (map (firstn 5) x) thr); [congruence|discriminate].
Qed.

Lemma cap_incl (x : list (list Q)) : incl (cap x) x.
Proof.
  unfold cap. destruct (max_nms <? N.of_nat (length x))%N; [|apply incl_refl].
  apply gather_incl. apply Forall_forall. intros i Hi.
  apply In_firstn in Hi. apply in_rev in Hi.
  eapply Permutation_in in Hi; [|apply argsort_perm].
  rewrite length_map in Hi. apply in_seq in Hi. lia.
Qed.

Lemma cap_length (x : list (list Q)) :
  (N.of_nat (length (cap x)) <= max_nms)%N.
Proof.
  unfold cap. destruct (N.ltb_spec max_nms (N.of_nat (length x))) as [H|H];
    [|exact H].
  unfold gather. rewrite length_map, length_firstn. lia.
Qed.

Lemma cap_nonempty (x : list (list Q)) : x <> [] -> cap x <> [].
Proof.
  intros Hne. unfold cap.
  destruct (max_nms <? N.of_nat (length x))%N; [|exact Hne].
  destruct (rev (argsort (map (col 4) x))) as [|c rest] eqn:E.
  - apply (f_equal (@length nat)) in E.
    rewrite length_rev, length_argsort, length_map in E.
    destruct x; [congruence|discriminate].
  - discriminate.
Qed.

(** The greedy loop keeps the order of the rows it is given. *)
Lemma greedy_sorted (R : list Q -> list Q -> Prop) (thr : Q) (fuel : nat)
    (rows : list (list Q)) :
  StronglySorted R rows -> StronglySorted R (greedy thr fuel rows).
Proof.
  revert rows. induction fuel as [|fuel IH]; intros rows H; [constructor|].
  destruct rows as [|c rest]; [constructor|]. cbn [greedy].
  inversion H as [|? ? Hrest Hc]; subst. constructor.
  - apply IH. clear IH Hc H.
    induction Hrest as [|a l Hl IHl Ha]; [constructor|]. cbn [filter].
    destruct (keeps thr c a).
    + constructor; [exact IHl|]. apply Forall_forall. intros r Hr.
      apply filter_In in Hr. rewrite Forall_forall in Ha. now apply Ha.
    + exact IHl.
  - apply greedy_Forall. apply Forall_forall. intros r Hr.
    apply filter_In in Hr. rewrite Forall_forall in Hc. now apply Hc.
Qed.

Lemma candidates_In (t : Q) (rows : list (list Q)) (d : list Q) :
  In d (candidates t rows) <->
  exists row j,
    In row rows /\ j < length row - 5 /\
    Qgt_bool (col 4 row) t = true /\
    Qgt_bool (combined row j) t = true /\
    d = detection_candidate row j.
Proof.
  rewrite candidates_rows, in_flat_map. split.
  - intros [row [Hrow Hd]].
    destruct (Qgt_bool (col 4 row) t) eqn:E; [|contradiction].
    unfold detections_of, classes_over in Hd. apply in_map_iff in Hd.
    destruct Hd as [j [<- Hj]]. apply filter_In in Hj.
    destruct Hj as [Hj Hc]. apply in_seq in Hj.
    exists row, j. repeat split; trivial; lia.
  - intros [row [j [Hrow [Hj [Ho [Hc ->]]]]]]. exists row.
    split; [exact Hrow|]. rewrite Ho. unfold detections_of, classes_over.
    apply in_map. apply filter_In. split; [apply in_seq; lia|exact Hc].
Qed.

(** X10: the detections of an image are at most [max_nms], they come in
    descending order of score, and each of them is the DetectionCandidate
    of an input row and a class that pass both tests: objectness above
    [conf_thres] and class score times objectness above [conf_thres]. *)
Theorem nms_image_detections (conf_thres : Q) (rows : list (list Q)) :
  let dets := nms_image conf_thres rows in
  (N.of_nat (length dets) <= max_nms)%N /\
  StronglySorted (fun d1 d2 => (col 4 d2 <= col 4 d1)%Q) dets /\
  Forall (fun d =>
            exists row j,
              In row rows /\ j < length row - 5 /\
              (conf_thres < col 4 row)%Q /\
              (conf_thres < col (j + 5) row * col 4 row)%Q /\
              d = xywh2xyxy_row row ++
                  [(col (j + 5) row * col 4 row)%Q; inject_Z (Z.of_nat j)])
         dets.
Proof.
  cbv zeta. rewrite nms_image_suppress. split; [|split].
  - pose proof (suppress_length iou_threshold_default
                  (cap (candidates conf_thres rows))).
    pose proof (cap_length (candidates conf_thres rows)). lia.
  - rewrite suppress_greedy. apply greedy_sorted.
    apply (StronglySorted_rev score_le). apply sort_rows_sorted.
  - apply Forall_forall. intros d Hd.
    apply suppress_incl, cap_incl, candidates_In in Hd.
    destruct Hd as [row [j [Hrow [Hj [Ho [Hc ->]]]]]].
    apply Qgt_bool_iff in Ho, Hc. exists row, j. now repeat split.
Qed.

(** X11: an image gets no detection exactly when none of its rows has a
    class that passes both tests; otherwise the result is not empty. *)
Theorem nms_image_empty (conf_thres : Q) (rows : list (list Q)) :
  nms_image conf_thres rows = [] <->
  forall row j, In row rows -> j < length row - 5 ->
    Qgt_bool (col 4 row) conf_thres = true ->
    Qgt_bool (combined row j) conf_thres = false.
Proof.
  rewrite nms_image_suppress. split.
  - intros H row j Hrow Hj Ho.
    destruct (Qgt_bool (combined row j) conf_thres) eqn:Hc; [|reflexivity].
    exfalso.
    assert (Hin : In (detection_candidate row j) (candidates conf_thres rows)).
    { apply candidates_In. exists row, j. now repeat split. }
    assert (Hne : candidates conf_thres rows <> [])
      by (intros E; rewrite E in Hin; contradiction).
    now apply (suppress_nonempty iou_threshold_default _
                 (cap_nonempty _ Hne)).
  - intros H.
    assert (E : candidates conf_thres rows = []).
    { destruct (candidates conf_thres rows) as [|d l] eqn:E; [reflexivity|].
      assert (Hin : In d (candidates conf_thres rows))
        by (rewrite E; now left).
      apply candidates_In in Hin.
      destruct Hin as [row [j [Hrow [Hj [Ho [Hc _]]]]]].
      rewrite (H row j Hrow Hj Ho) in Hc. discriminate. }
    rewrite E. reflexivity.
Qed.

Lemma nms_image_empty_witness :
  nms_image 1 [row_two_classes] = [].
Proof.
  apply (proj2 (nms_image_empty 1 [row_two_classes])).
  intros row j [<-|[]] Hj Ho. vm_compute in Ho. discriminate.
Defined.

(* ------------------------------------------------------------------ *)
(** ** Remapping to the original image *)

(** X12: the remapping of a row undoes a letterbox transform: for a scale
    ratio other than 0, a row whose corners are [ratio * x + pad] is mapped
    back to the corners [x], and its score and class id are kept. *)
Theorem remap_row_inverts_letterbox (ratio dw dh x1 y1 x2 y2 score cls : Q) :
  ~ (ratio == 0)%Q ->
  Forall2 Qeq
    (remap_row ratio (dw, dh)
       [ratio * x1 + dw; ratio * y1 + dh; ratio * x2 + dw; ratio * y2 + dh;
        score; cls]%Q)
    [x1; y1; x2; y2; score; cls].
Proof.
  intros H. cbn [remap_row fst snd].
  repeat constructor; try reflexivity; field; exact H.
Qed.

Lemma remap_row_inverts_letterbox_witness :
  Forall2 Qeq
    (remap_row (1 # 2) (3, 4)%Q
       [(1 # 2) * 10 + 3; (1 # 2) * 20 + 4; (1 # 2) * 30 + 3;
        (1 # 2) * 40 + 4; 9 # 10; 2]%Q)
    [10; 20; 30; 40; 9 # 10; 2]%Q.
Proof.
  apply (remap_row_inverts_letterbox (1 # 2) 3 4 10 20 30 40 (9 # 10) 2).
  discriminate.
Defined.

Lemma remap_from (i : nat) (preds : list (list (list Q)))
    (contexts : list context) :
  Forall (fun ctx => ~ (scale ctx == 0)%Q) contexts ->
  (i + length preds <= length contexts ->
   remap i preds contexts
   = Ok (map (fun k => map (remap_row (scale (nth (i + k) contexts ctx_identity))
                                      (pad (nth (i + k) contexts ctx_identity)))
                           (nth k preds []))
             (seq 0 (length preds)))) /\
  (preds <> [] -> length contexts < i + length preds ->
   remap i preds contexts = Raise IndexError).
Proof.
  intros Hsc. revert i. induction preds as [|p preds IH]; intros i.
  - split; [reflexivity|congruence].
  - cbn [remap length]. destruct (nth_error contexts i) as [ctx|] eqn:E.
    + assert (Hi : i < length contexts)
        by (apply nth_error_Some; congruence).
      assert (Hctx : nth i contexts ctx_identity = ctx)
        by now apply nth_error_nth.
      assert (Hz : Qeq_bool (scale ctx) 0 = false).
      { destruct (Qeq_bool (scale ctx) 0) eqn:Ez; [|reflexivity].
        apply Qeq_bool_eq in Ez. rewrite Forall_forall in Hsc.
        elim (Hsc ctx); [|exact Ez]. eapply nth_error_In; eassumption. }
      rewrite Hz. destruct (IH (S i)) as [IHok IHerr]. split.
      * intros Hl. rewrite IHok by lia. cbn [bind seq map nth].
        rewrite Nat.add_0_r, Hctx. do 2 f_equal.
        rewrite <- seq_shift, map_map. apply map_ext. intros k.
        now rewrite Nat.add_succ_r.
      * intros _ Hl. rewrite IHerr; [reflexivity| |lia].
        intros ->. simpl in Hl. lia.
    + split; [|reflexivity].
      intros Hl. apply nth_error_None in E. lia.
Qed.

(** X13: given contexts whose scale ratios are not 0, the remapping loop
    succeeds when there is a context for every image, remaps image [k]
    with context [k] and ignores the contexts beyond; with fewer contexts
    than images it raises [IndexError]. *)
Theorem remap_contexts (predictions : list (list (list Q)))
    (contexts : list context) :
  Forall (fun ctx => ~ (scale ctx == 0)%Q) contexts ->
  (length predictions <= length contexts ->
   exists out,
     remap 0 predictions contexts = Ok out /\
     length out = length predictions /\
     forall k, k < length predictions ->
       nth k out []
       = map (remap_row (scale (nth k contexts ctx_identity))
                        (pad (nth k contexts ctx_identity)))
             (nth k predictions [])) /\
  (length contexts < length predictions ->
   remap 0 predictions contexts = Raise IndexError).
Proof.
  intros Hsc. destruct (remap_from 0 predictions contexts Hsc) as [Hok Herr].
  split.
  - intros Hl. eexists. split; [now apply Hok|].
    split; [now rewrite length_map, length_seq|].
    intros k Hk.
    now rewrite (nth_map_seq
                   (fun k => map (remap_row
                                    (scale (nth (0 + k) contexts ctx_identity))
                                    (pad (nth (0 + k) contexts ctx_identity)))
                                 (nth k predictions []))).
  - intros Hl. apply Herr; [|exact Hl].
    intros ->. simpl in Hl. lia.
Qed.

Lemma remap_contexts_witness :
  remap 0 [[]; []] [ctx_identity] = Raise IndexError.
Proof.
  apply (remap_contexts [[]; []] [ctx_identity]).
  - repeat constructor. discriminate.
  - simpl. lia.
Defined.

(* ------------------------------------------------------------------ *)
(** ** The call as a whole *)

Lemma remap_inv_single (dets : list (list Q)) (contexts : list context)
    (r : list (list (list Q))) :
  remap 0 [dets] contexts = Ok r ->
  exists ctx, nth_error contexts 0 = Some ctx /\
              ~ (scale ctx == 0)%Q /\
              r = [map (remap_row (scale ctx) (pad ctx)) dets].
Proof.
  cbn [remap]. destruct (nth_error contexts 0) as [ctx|]; [|discriminate].
  destruct (Qeq_bool (scale ctx) 0) eqn:E; [discriminate|].
  cbn [bind]. intros [= <-]. exists ctx. split; [reflexivity|].
  split; [|reflexivity]. now apply Qeq_bool_neq.
Qed.

(** X14: a call that returns has decoded the tensors into one table of
    candidates, has suppressed on that table and has remapped the
    survivors with the first context: it returns the detections of exactly
    one image, whatever the batch size of the tensors and the number of
    contexts, and its thresholds lie in [0, 1]. *)
Theorem call_returns_one_image (sigmoid : Q -> Q)
    (self : YOLOv5PythonPostProcessor) (model_outputs : list ndarray)
    (contexts : list context) (conf_thres iou_thres : Q)
    (with_sigmoid : bool) (r : list (list (list Q))) :
  call sigmoid self model_outputs contexts conf_thres iou_thres with_sigmoid
  = Ok r ->
  exists outputs n ctx,
    decode_all sigmoid self model_outputs with_sigmoid = Ok outputs /\
    shape outputs = [1; n; length (class_names self) + 5] /\
    (0 <= conf_thres <= 1)%Q /\ (0 <= iou_thres <= 1)%Q /\
    nth_error contexts 0 = Some ctx /\
    r = [map (remap_row (scale ctx) (pad ctx))
             (nms_image conf_thres
                (image_rows outputs n (length (class_names self) + 5) 0))].
Proof.
  unfold call.
  destruct (decode_all sigmoid self model_outputs with_sigmoid)
    as [outputs|e] eqn:E; [|discriminate]. cbn [bind].
  destruct (decode_all_shape _ _ _ _ _ E) as [n Hn].
  unfold non_max_suppression. rewrite Hn.
  replace (length (class_names self) + 5 <=? 4) with false
    by (symmetry; apply Nat.leb_gt; lia).
  destruct (in_unit conf_thres) eqn:H1; [|discriminate].
  destruct (in_unit iou_thres) eqn:H2; [|discriminate].
  cbn [negb bind seq map]. intros H.
  apply remap_inv_single in H. destruct H as [ctx [Hc [_ ->]]].
  exists outputs, n, ctx. apply in_unit_iff in H1, H2. now repeat split.
Qed.

Lemma unit_call_ok :
  exists self d,
    init anchors_10 one_class (8, 8) = Ok self /\
    call (fun v => v) self [feat_unit] [ctx_identity] conf_thres_default
         iou_thres_default false = Ok [[d]].
Proof.
  do 2 eexists. split; [vm_compute; reflexivity|].
  vm_compute. reflexivity.
Qed.

Lemma call_returns_one_image_witness :
  exists self r outputs n ctx,
    init anchors_10 one_class (8, 8) = Ok self /\
    call (fun v => v) self [feat_unit] [ctx_identity] conf_thres_default
         iou_thres_default false = Ok r /\
    decode_all (fun v => v) self [feat_unit] false = Ok outputs /\
    shape outputs = [1; n; length (class_names self) + 5] /\
    nth_error [ctx_identity] 0 = Some ctx /\
    r = [map (remap_row (scale ctx) (pad ctx))
             (nms_image conf_thres_default
                (image_rows outputs n (length (class_names self) + 5) 0))].
Proof.
  destruct unit_call_ok as [self [d [Hi Hc]]].
  destruct (call_returns_one_image _ _ _ _ _ _ _ _ Hc)
    as [outputs [n [ctx [H1 [H2 [_ [_ [H3 H4]]]]]]]].
  exists self, [[d]], outputs, n, ctx. now repeat split.
Defined.

(* ------------------------------------------------------------------ *)
(** ** Decoding a scale, and construction *)

(** X15: for a single image, one turn of the decoding loop flattens the
    decoded tensor of a scale into [anchors * rows * columns] candidates
    of [classes + 5] entries: the candidate of anchor slot [a], row [r]
    and column [c] is row [(a * ny + r) * nx + c] of the result. *)
Theorem decode_layer_flattens (sigmoid : Q -> Q)
    (self : YOLOv5PythonPostProcessor) (with_sigmoid : bool)
    (model_output grid : ndarray) (stride : Q) (anchor_grid : ndarray)
    (ny nx : nat) :
  let A := anchor_per_layer_count self in
  let N := length (class_names self) in
  shape model_output = [1; A; ny; nx; N + 5] ->
  shape grid = [1; A; ny; nx; 2] ->
  shape anchor_grid = [1; A; ny; nx; 2] ->
  exists y t,
    decode sigmoid with_sigmoid model_output grid stride anchor_grid = Ok y /\
    decode_layer sigmoid self with_sigmoid
      (model_output, grid, stride, anchor_grid) = Ok t /\
    shape t = [1; A * ny * nx; N + 5] /\
    forall a r c k, a < A -> r < ny -> c < nx -> k < N + 5 ->
      get t [0; (a * ny + r) * nx + c; k] = get y [0; a; r; c; k].
Proof.
  intros A N Hmo Hg Hag.
  destruct (decode_spec sigmoid with_sigmoid model_output grid stride
              anchor_grid 1 A ny nx N Hmo Hg Hag) as [y [Hy [Hsy _]]].
  unfold decode_layer. rewrite Hmo, Hy. cbn [bind]. fold A N.
  unfold reshape. rewrite Hsy.
  assert (Hsz : (size [1; A * ny * nx; N + 5] =? size [1; A; ny; nx; N + 5])
                = true).
  { apply Nat.eqb_eq. simpl. ring. }
  rewrite Hsz. exists y. eexists. split; [reflexivity|].
  split; [reflexivity|]. split; [reflexivity|].
  intros a r c k Ha Hr Hc Hk. unfold get. cbn [shape data]. rewrite Hsy.
  f_equal. simpl. ring.
Qed.

Lemma decode_layer_flattens_witness :
  exists self g ag y t,
    init anchors_10 one_class (8, 8) = Ok self /\
    decode (fun v => v) false cell_unit g 8 ag = Ok y /\
    decode_layer (fun v => v) self false (cell_unit, g, 8%Q, ag) = Ok t /\
    shape t = [1; 1 * 1 * 1; 1 + 5].
Proof.
  destruct unit_call_ok as [self0 [d [Hi _]]].
  vm_compute in Hi. injection Hi as Hi.
  set (g := {| shape := [1; 1; 1; 1; 2]; data := [-1 # 2; -1 # 2]%Q |}).
  set (ag := {| shape := [1; 1; 1; 1; 2]; data := [80; 80]%Q |}).
  destruct (decode_layer_flattens (fun v => v) self0 false cell_unit g 8 ag
              1 1) as [y [t [Hy [Ht [Hs _]]]]].
  - rewrite <- Hi. reflexivity.
  - rewrite <- Hi. reflexivity.
  - rewrite <- Hi. reflexivity.
  - exists self0, g, ag, y, t. rewrite <- Hi in Hs.
    repeat split; trivial. rewrite <- Hi. vm_compute. reflexivity.
Defined.

(** X16: a tensor that holds other than one image is not flattened: when
    the leading length [b] is not 1 and the scale has at least one
    candidate, the turn of the decoding loop raises [ValueError]. *)
Theorem decode_layer_rejects_batch (sigmoid : Q -> Q)
    (self : YOLOv5PythonPostProcessor) (with_sigmoid : bool)
    (model_output grid : ndarray) (stride : Q) (anchor_grid : ndarray)
    (b ny nx : nat) :
  let A := anchor_per_layer_count self in
  let N := length (class_names self) in
  shape model_output = [b; A; ny; nx; N + 5] ->
  shape grid = [1; A; ny; nx; 2] ->
  shape anchor_grid = [1; A; ny; nx; 2] ->
  b <> 1 -> 0 < A * ny * nx ->
  decode_layer sigmoid self with_sigmoid
    (model_output, grid, stride, anchor_grid) = Raise ValueError.
Proof.
  intros A N Hmo Hg Hag Hb Hpos.
  destruct (decode_spec sigmoid with_sigmoid model_output grid stride
              anchor_grid b A ny nx N Hmo Hg Hag) as [y [Hy [Hsy _]]].
  unfold decode_layer. rewrite Hmo, Hy. cbn [bind]. fold A N.
  unfold reshape. rewrite Hsy.
  assert (Hsz : (size [1; A * ny * nx; N + 5] =? size [b; A; ny; nx; N + 5])
                = false).
  { apply Nat.eqb_neq. simpl. nia. }
  now rewrite Hsz.
Qed.

(** X17: [_reshape_output] raises [IndexError] on a tensor of fewer than
    four axes, and [ValueError] on a non-empty four-axis tensor whose
    channel count is not [anchors * (classes + 5)]. *)
Theorem reshape_output_errors (feat : ndarray)
    (anchor_per_layer_count num_classes : nat) :
  (length (shape feat) < 4 ->
   _reshape_output feat anchor_per_layer_count num_classes
   = Raise IndexError) /\
  (forall b ch w h,
     shape feat = [b; ch; w; h] -> 0 < b * w * h ->
     ch <> anchor_per_layer_count * (num_classes + 5) ->
     _reshape_output feat anchor_per_layer_count num_classes
     = Raise ValueError).
Proof.
  unfold _reshape_output. split.
  - destruct (shape feat) as [|? [|? [|? [|? ?]]]]; simpl; intros H;
      try reflexivity; lia.
  - intros b ch w h Hs Hpos Hch. rewrite Hs. unfold reshape. rewrite Hs.
    assert (Hsz : (size [b; anchor_per_layer_count; num_classes + 5; w; h]
                   =? size [b; ch; w; h]) = false).
    { apply Nat.eqb_neq. simpl. rewrite !Nat.mul_1_r.
      intros E.
      assert (E' : (anchor_per_layer_count * (num_classes + 5)) * (b * w * h)
                   = ch * (b * w * h)) by nia.
      apply Nat.mul_cancel_r in E'; lia. }
    now rewrite Hsz.
Qed.

Lemma reshape_output_errors_witness :
  _reshape_output feat_unit 1 2 = Raise ValueError.
Proof.
  apply (proj2 (reshape_output_errors feat_unit 1 2) 1 6 1 1).
  - reflexivity.
  - simpl. lia.
  - simpl. lia.
Defined.

Lemma decode_layer_rejects_batch_witness :
  exists self,
    init anchors_10 one_class (8, 8) = Ok self /\
    decode_layer (fun v => v) self false
      ({| shape := [2; 1; 1; 1; 6];
          data := [0; 0; 1 # 2; 1 # 2; 1; 1; 0; 0; 1 # 2; 1 # 2; 1; 1]%Q |},
       {| shape := [1; 1; 1; 1; 2]; data := [-1 # 2; -1 # 2]%Q |},
       8%Q,
       {| shape := [1; 1; 1; 1; 2]; data := [80; 80]%Q |})
    = Raise ValueError.
Proof.
  destruct unit_call_ok as [self0 [d [Hi _]]].
  exists self0. split; [exact Hi|].
  vm_compute in Hi. injection Hi as Hi.
  apply (decode_layer_rejects_batch (fun v => v) self0 false _ _ _ _ 2 1 1);
    try rewrite <- Hi; try reflexivity; [discriminate|simpl; lia].
Defined.

Lemma make_grid_ok (anchors : ndarray) (stride : list Q)
    (L A nx ny i : nat) :
  shape anchors = [L; A; 2] -> i < L ->
  exists g ag,
    make_grid anchors stride A nx ny i = Ok (g, ag) /\
    shape g = [1; A; ny; nx; 2] /\
    shape ag = [1; A; ny; nx; 2].
Proof.
  intros Hs Hi. unfold make_grid, meshgrid_ij, stack2_axis2.
  cbn [shape arange tabulate]. rewrite shape_eqb_refl.
  cbn [length Nat.eqb andb bind].
  unfold broadcast_to at 1. cbn [shape tabulate app rev can_broadcast_rev].
  rewrite !size_one, !Nat.eqb_refl. cbn [orb andb bind].
  unfold subarray. rewrite Hs, (proj2 (Nat.ltb_lt i L) Hi). cbn [bind].
  unfold reshape. cbn [shape map_arr].
  assert (Hsz : (size [1; A; 1; 1; 2] =? size [A; 2]) = true).
  { apply Nat.eqb_eq. simpl. lia. }
  rewrite Hsz. cbn [bind].
  unfold broadcast_to. cbn [shape rev app can_broadcast_rev].
  rewrite !Nat.eqb_refl, !orb_true_r. cbn [orb andb bind].
  do 2 eexists. split; [reflexivity|]. split; reflexivity.
Qed.

Lemma Forall2_length_nth {A B : Type} (R : A -> B -> Prop) (l : list A)
    (bs : list B) :
  Forall2 R l bs ->
  length bs = length l /\
  forall i da db, i < length l -> R (nth i l da) (nth i bs db).
Proof.
  induction 1 as [|a b l bs Hab _ [IHl IHn]]; [split; [reflexivity|]|].
  - intros i da db Hi. simpl in Hi. lia.
  - split; [simpl; now rewrite IHl|]. intros [|i] da db Hi; [exact Hab|].
    apply IHn. simpl in Hi. lia.
Qed.

(** X18: built from an anchor table of shape [(L, A, 2)], the processor
    has [L] scales and [A] anchor slots, holds the stride [8 * 2^i] for
    scale [i], and for every scale an offset grid and an anchor grid of
    shape [(1, A, ny_i, nx_i, 2)], with [nx_i] and [ny_i] the input width
    and height divided by the stride, rounded down. *)
Theorem init_grids (anchors : ndarray) (class_names : list string)
    (input_shape : nat * nat) (L A : nat) :
  shape anchors = [L; A; 2] ->
  exists self,
    init anchors class_names input_shape = Ok self /\
    num_layers self = L /\
    anchor_per_layer_count self = A /\
    length (stride self) = L /\
    length (grid self) = L /\
    length (anchor_grid self) = L /\
    forall i, i < L ->
      let s := [1; A; snd input_shape / (8 * 2 ^ i);
                fst input_shape / (8 * 2 ^ i); 2] in
      nth i (stride self) 0%Q = inject_Z (8 * 2 ^ Z.of_nat i) /\
      shape (nth i (grid self) (arange 0)) = s /\
      shape (nth i (anchor_grid self) (arange 0)) = s.
Proof.
  intros Hs. unfold init, init_grid. rewrite Hs.
  set (st := map stride_of (seq 0 L)).
  set (nx_ny := map (fun j => (fst input_shape / (8 * 2 ^ j),
                               snd input_shape / (8 * 2 ^ j))) (seq 0 L)).
  set (mk := fun j => make_grid anchors st A (fst (nth j nx_ny (0, 0)))
                        (snd (nth j nx_ny (0, 0))) j).
  destruct (mapM_ok mk (seq 0 L)) as [gs [Hgs HF]].
  { intros j Hj. apply in_seq in Hj. unfold mk.
    destruct (make_grid_ok anchors st L A (fst (nth j nx_ny (0, 0)))
                (snd (nth j nx_ny (0, 0))) j Hs) as [g [ag [H _]]]; [lia|].
    now exists (g, ag). }
  fold mk. rewrite Hgs. cbn [bind]. eexists. split; [reflexivity|].
  cbn [num_layers anchor_per_layer_count stride grid anchor_grid].
  destruct (Forall2_length_nth _ _ _ HF) as [Hlen Hnth].
  rewrite length_seq in Hlen, Hnth.
  split; [reflexivity|]. split; [reflexivity|].
  split; [unfold st; now rewrite length_map, length_seq|].
  split; [now rewrite length_map|]. split; [now rewrite length_map|].
  intros i H. cbv zeta.
  pose proof (Hnth i 0 (arange 0, arange 0) H) as Hmk.
  rewrite seq_nth in Hmk by exact H. cbn [Nat.add] in Hmk. unfold mk in Hmk.
  assert (Hxy : nth i nx_ny (0, 0)
                = (fst input_shape / (8 * 2 ^ i),
                   snd input_shape / (8 * 2 ^ i))).
  { unfold nx_ny. now rewrite nth_map_seq. }
  rewrite Hxy in Hmk. cbn [fst snd] in Hmk.
  destruct (make_grid_ok anchors st L A (fst input_shape / (8 * 2 ^ i))
              (snd input_shape / (8 * 2 ^ i)) i Hs H)
    as [g [ag [Hmk' [Hg Hag]]]].
  rewrite Hmk in Hmk'.
  pose proof (map_nth fst gs (arange 0, arange 0) i) as Hm1.
  pose proof (map_nth snd gs (arange 0, arange 0) i) as Hm2.
  cbn [fst snd] in Hm1, Hm2. rewrite Hm1, Hm2.
  destruct (nth i gs (arange 0, arange 0)). injection Hmk' as -> ->.
  split; [|split; assumption].
  unfold st. now rewrite (nth_map_seq stride_of).
Qed.

Lemma init_grids_witness :
  exists self,
    init anchors_3x3 one_class (640, 480) = Ok self /\
    num_layers self = 3 /\
    anchor_per_layer_count self = 3 /\
    length (stride self) = 3 /\
    length (grid self) = 3 /\
    length (anchor_grid self) = 3 /\
    forall i, i < 3 ->
      let s := [1; 3; snd (640, 480) / (8 * 2 ^ i);
                fst (640, 480) / (8 * 2 ^ i); 2] in
      nth i (stride self) 0%Q = inject_Z (8 * 2 ^ Z.of_nat i) /\
      shape (nth i (grid self) (arange 0)) = s /\
      shape (nth i (anchor_grid self) (arange 0)) = s.
Proof.
  apply (init_grids anchors_3x3 one_class (640, 480) 3 3). reflexivity.
Defined.

(** X19: the construction fails on an anchor table it cannot use: with
    fewer than two axes it raises [IndexError], and with at least one
    scale and one anchor slot but anchors that are not pairs it raises
    [ValueError]. *)
Theorem init_errors (anchors : ndarray) (class_names : list string)
    (input_shape : nat * nat) :
  (length (shape anchors) < 2 ->
   init anchors class_names input_shape = Raise IndexError) /\
  (forall L A k,
     shape anchors = [L; A; k] -> 0 < L -> 0 < A -> k <> 2 ->
     init anchors class_names input_shape = Raise ValueError).
Proof.
  unfold init. split.
  - destruct (shape anchors) as [|? [|? ?]]; simpl; intros H;
      try reflexivity; lia.
  - intros L A k Hs HL HA Hk. rewrite Hs. unfold init_grid.
    destruct L as [|L]; [lia|]. cbn [seq mapM].
    set (mg := make_grid _ _ _ _ _ 0).
    assert (E : mg = Raise ValueError).
    { unfold mg, make_grid, meshgrid_ij, stack2_axis2.
      cbn [shape arange tabulate]. rewrite shape_eqb_refl.
      cbn [length Nat.eqb andb bind].
      unfold broadcast_to at 1.
      cbn [shape tabulate app rev can_broadcast_rev].
      rewrite !size_one, !Nat.eqb_refl. cbn [orb andb bind].
      unfold subarray. rewrite Hs. cbn [Nat.ltb Nat.leb bind].
      unfold reshape. cbn [shape map_arr].
      assert (Hsz : (size [1; A; 1; 1; 2] =? size [A; k]) = false).
      { apply Nat.eqb_neq. simpl. nia. }
      now rewrite Hsz. }
    now rewrite E.
Qed.

Lemma init_errors_witness :
  init {| shape := [1; 1; 3]; data := [10; 10; 10]%Q |} one_class (8, 8)
  = Raise ValueError.
Proof.
  apply (proj2 (init_errors {| shape := [1; 1; 3]; data := [10; 10; 10]%Q |}
                  one_class (8, 8)) 1 1 3); try reflexivity; lia.
Defined.
